(** * RelayConnection: the relay session state machine of emberclear

    A shallow embedding of
    [packages/frontend/src/services/relay-connection.ts].

    The service is an Ember object whose fields are mutated from promise
    and Phoenix callbacks on one event loop.  The embedding threads one
    [State] through every method: the fields of the service, the
    [establishConnection] drop-task, the Phoenix objects the service has
    created (sockets, channels, pushes), the promises it has handed out,
    and the effects it has had on its collaborators (console, dispatcher,
    message processor).  Whatever the outside world does (the application
    calling [connect] or [send], the identity lookup answering, the relay
    acknowledging a join or a push, a socket closing) is an [Event], and
    [step] runs the callbacks the source registered for it.

    Two conventions.  A continuation waiting on a promise runs in the turn
    that settles the promise (and at once when the promise is settled
    already): the microtask hop between the two is not a separate turn.
    The collaborators ([identity], [relayManager], [intl]) answer the same
    throughout a run and are collected in [Env]. *)

From Stdlib Require Import NArith Ascii.
From Stdlib Require Import Init.Byte.
From stdpp Require Import base list strings.

Local Open Scope string_scope.
Local Open Scope list_scope.

(** ** JavaScript values that cross the service's boundary *)

(** Payloads acknowledged by the relay, rejection reasons and console
    arguments: [undefined], a string, or an object literal with string
    fields. *)
Inductive value : Type :=
  | VUndefined
  | VStr (s : string)
  | VObj (fields : list (string * string)).

(** [interface ISendPayload { to: string; message: String }] *)
Record ISendPayload : Type := mkPayload { to : string; message : string }.

(** The three acknowledgments of a Phoenix join or push. *)
Inductive ack : Type := Ok | Error | Timeout.

(** A promise is pending, fulfilled with a value of its type, or rejected
    with a reason. *)
Inductive promise (A : Type) : Type :=
  | Pending
  | Fulfilled (a : A)
  | Rejected (r : value).
Arguments Pending {A}.
Arguments Fulfilled {A} a.
Arguments Rejected {A} r.

(** Objects and promises are named by their position in the store that
    holds them. *)
Abbreviation socket_id := nat (only parsing).
Abbreviation channel_id := nat (only parsing).
Abbreviation push_id := nat (only parsing).
Abbreviation promise_id := nat (only parsing).

(** ** Phoenix objects created by the service *)

(** [new Socket(url, { params: { uid } })], with the handlers registered on
    it and the calls made to it. *)
Record SocketObj : Type := mkSocket {
  sk_url : string;
  sk_uid : string;
  sk_onError : bool;
  sk_onClose : bool;
  sk_connects : nat;
  sk_disconnects : nat
}.

(** [socket.channel(topic, {})]; [ch_join] is the promise whose [resolve]
    the "ok" hook of the join push closes over. *)
Record ChannelObj : Type := mkChannel {
  ch_topic : string;
  ch_socket : socket_id;
  ch_join : promise_id
}.

(** [channel.push(event, payload)]; [pu_promise] is the promise the three
    receive hooks settle. *)
Record PushObj : Type := mkPush {
  pu_channel : channel_id;
  pu_event : string;
  pu_payload : ISendPayload;
  pu_promise : promise_id
}.

Inductive log_entry : Type :=
  | ConsoleError (v : value)
  | ConsoleInfo (v : value)
  | ConsoleLog (v : value).

(** ** The service *)

(** The declared fields of [RelayConnection]. *)
Record Conn : Type := mkConn {
  socket : option socket_id;
  channel : option channel_id;
  channelName : option string;
  status : option string;
  statusLevel : option string;
  connected : bool
}.

(** The [@dropTask] [establishConnection]: idle, suspended at
    [yield this.canConnect()], or suspended at [yield this.getChannel()]. *)
Inductive TaskState : Type :=
  | Idle
  | AwaitCanConnect
  | AwaitChannel (p : promise_id).

(** A [send] suspended at [await this.getChannel()]: the awaited promise,
    the payload built before the await, and the promise [send] returned. *)
Record Waiter : Type := mkWaiter {
  w_on : promise_id;
  w_payload : ISendPayload;
  w_result : promise_id
}.

Record State : Type := mkState {
  conn : Conn;
  task : TaskState;
  waiters : list Waiter;
  sockets : list SocketObj;
  channels : list ChannelObj;
  pushes : list PushObj;
  chan_promises : list (promise (option channel_id));
  send_promises : list (promise value);
  console : list log_entry;
  pings : nat;
  received : list value
}.

(** The collaborators the service consumes. *)
Record Env : Type := mkEnv {
  identity_exists : bool;
  identity_publicKey : option (list byte);
  relay_socket : string;
  intl_t : string -> string
}.

(** A fresh service: [connected = false], every other field undefined. *)
Definition init : State :=
  {| conn := {| socket := None; channel := None; channelName := None;
                status := None; statusLevel := None; connected := false |};
     task := Idle; waiters := []; sockets := []; channels := [];
     pushes := []; chan_promises := []; send_promises := [];
     console := []; pings := 0; received := [] |}.

(** ** Hex encoding *)

Definition hex_digit (n : N) : ascii :=
  match n with
  | 0 => "0" | 1 => "1" | 2 => "2" | 3 => "3" | 4 => "4" | 5 => "5"
  | 6 => "6" | 7 => "7" | 8 => "8" | 9 => "9" | 10 => "a" | 11 => "b"
  | 12 => "c" | 13 => "d" | 14 => "e" | _ => "f"
  end%N%char.

(** Modelled from the spec: [toHex] of [emberclear/src/utils/string-encoding]
    is imported by the service but is not among the sources.  The spec fixes
    it by its example, bytes [0xAB, 0xCD] give ["abcd"]: two lowercase hex
    digits per byte, high nibble first. *)
Fixpoint toHex (bytes : list byte) : string :=
  match bytes with
  | [] => EmptyString
  | b :: rest =>
      let n := Byte.to_N b in
      String (hex_digit (n / 16)) (String (hex_digit (n mod 16)) (toHex rest))
  end.

(** ** Field updates *)

(** [this.set(field, v)] on the service, one function per field. *)
Definition upd_conn (f : Conn -> Conn) (s : State) : State :=
  {| conn := f (conn s); task := task s; waiters := waiters s;
     sockets := sockets s; channels := channels s; pushes := pushes s;
     chan_promises := chan_promises s; send_promises := send_promises s;
     console := console s; pings := pings s; received := received s |}.

Definition set_socket (v : option socket_id) : State -> State :=
  upd_conn (fun c => mkConn v (channel c) (channelName c) (status c)
                            (statusLevel c) (connected c)).
Definition set_channel (v : option channel_id) : State -> State :=
  upd_conn (fun c => mkConn (socket c) v (channelName c) (status c)
                            (statusLevel c) (connected c)).
Definition set_channelName (v : option string) : State -> State :=
  upd_conn (fun c => mkConn (socket c) (channel c) v (status c)
                            (statusLevel c) (connected c)).
Definition set_status (v : option string) : State -> State :=
  upd_conn (fun c => mkConn (socket c) (channel c) (channelName c) v
                            (statusLevel c) (connected c)).
Definition set_statusLevel (v : option string) : State -> State :=
  upd_conn (fun c => mkConn (socket c) (channel c) (channelName c) (status c)
                            v (connected c)).
Definition set_connected (v : bool) : State -> State :=
  upd_conn (fun c => mkConn (socket c) (channel c) (channelName c) (status c)
                            (statusLevel c) v).

Definition set_task (v : TaskState) (s : State) : State :=
  {| conn := conn s; task := v; waiters := waiters s;
     sockets := sockets s; channels := channels s; pushes := pushes s;
     chan_promises := chan_promises s; send_promises := send_promises s;
     console := console s; pings := pings s; received := received s |}.
Definition set_waiters (v : list Waiter) (s : State) : State :=
  {| conn := conn s; task := task s; waiters := v;
     sockets := sockets s; channels := channels s; pushes := pushes s;
     chan_promises := chan_promises s; send_promises := send_promises s;
     console := console s; pings := pings s; received := received s |}.
Definition set_sockets (v : list SocketObj) (s : State) : State :=
  {| conn := conn s; task := task s; waiters := waiters s;
     sockets := v; channels := channels s; pushes := pushes s;
     chan_promises := chan_promises s; send_promises := send_promises s;
     console := console s; pings := pings s; received := received s |}.
Definition set_channels (v : list ChannelObj) (s : State) : State :=
  {| conn := conn s; task := task s; waiters := waiters s;
     sockets := sockets s; channels := v; pushes := pushes s;
     chan_promises := chan_promises s; send_promises := send_promises s;
     console := console s; pings := pings s; received := received s |}.
Definition set_pushes (v : list PushObj) (s : State) : State :=
  {| conn := conn s; task := task s; waiters := waiters s;
     sockets := sockets s; channels := channels s; pushes := v;
     chan_promises := chan_promises s; send_promises := send_promises s;
     console := console s; pings := pings s; received := received s |}.
Definition set_chan_promises (v : list (promise (option channel_id)))
    (s : State) : State :=
  {| conn := conn s; task := task s; waiters := waiters s;
     sockets := sockets s; channels := channels s; pushes := pushes s;
     chan_promises := v; send_promises := send_promises s;
     console := console s; pings := pings s; received := received s |}.
Definition set_send_promises (v : list (promise value)) (s : State) : State :=
  {| conn := conn s; task := task s; waiters := waiters s;
     sockets := sockets s; channels := channels s; pushes := pushes s;
     chan_promises := chan_promises s; send_promises := v;
     console := console s; pings := pings s; received := received s |}.
Definition set_console (v : list log_entry) (s : State) : State :=
  {| conn := conn s; task := task s; waiters := waiters s;
     sockets := sockets s; channels := channels s; pushes := pushes s;
     chan_promises := chan_promises s; send_promises := send_promises s;
     console := v; pings := pings s; received := received s |}.
Definition set_pings (v : nat) (s : State) : State :=
  {| conn := conn s; task := task s; waiters := waiters s;
     sockets := sockets s; channels := channels s; pushes := pushes s;
     chan_promises := chan_promises s; send_promises := send_promises s;
     console := console s; pings := v; received := received s |}.
Definition set_received (v : list value) (s : State) : State :=
  {| conn := conn s; task := task s; waiters := waiters s;
     sockets := sockets s; channels := channels s; pushes := pushes s;
     chan_promises := chan_promises s; send_promises := send_promises s;
     console := console s; pings := pings s; received := v |}.

(** ** Promises, console and Phoenix calls *)

(** [resolve]/[reject] of a promise: the first settlement wins, later ones
    are ignored. *)
Definition settle {A : Type} (p : promise_id) (o : promise A)
    (ps : list (promise A)) : list (promise A) :=
  match ps !! p with
  | Some Pending => <[p := o]> ps
  | _ => ps
  end.

Definition log (e : log_entry) (s : State) : State :=
  set_console (console s ++ [e]) s.

(** [socket.disconnect()] *)
Definition socket_disconnect (sk : socket_id) (s : State) : State :=
  set_sockets
    (alter (fun o => mkSocket (sk_url o) (sk_uid o) (sk_onError o)
                              (sk_onClose o) (sk_connects o)
                              (S (sk_disconnects o)))
           sk (sockets s)) s.

(** [channel.push(event, payload)] followed by the three [receive] hooks of
    [send], all of which settle the promise [q]. *)
Definition channel_push (c : channel_id) (event : string)
    (payload : ISendPayload) (q : promise_id) (s : State) : State :=
  set_pushes (pushes s ++ [mkPush c event payload q]) s.

(** [!x] for an optional string: [undefined] and [''] are falsy. *)
Definition falsy (x : option string) : bool :=
  match x with
  | None => true
  | Some EmptyString => true
  | Some (String _ _) => false
  end.

(** ** The methods of the service *)

Section Service.

Variable env : Env.

(** [this.intl.t(key)] *)
Definition t (key : string) : string := intl_t env key.

(** [updateStatus = (level, msg) => { set('status', msg); set('statusLevel', level) }] *)
Definition updateStatus (level msg : string) (s : State) : State :=
  set_statusLevel (Some level) (set_status (Some msg) s).

(** [canConnect()]: the answer of [identity.exists()]. *)
Definition canConnect : bool := identity_exists env.

(** [userChannelId()]: [''] without a public key, its hex encoding otherwise. *)
Definition userChannelId : string :=
  match identity_publicKey env with
  | None => EmptyString
  | Some publicKey => toHex publicKey
  end.

Definition onSocketError (s : State) : State :=
  updateStatus "error" (t "connection.status.socket.error") s.

Definition onSocketClose (s : State) : State :=
  set_connected false
    (updateStatus "info" (t "connection.status.socket.close") s).

Definition onChannelError (s : State) : State :=
  let s := log (ConsoleLog (VStr "channel errored")) s in
  match socket (conn s) with
  | Some sk => socket_disconnect sk s
  | None => s
  end.

Definition onChannelClose (s : State) : State :=
  let s := log (ConsoleLog (VStr "channel closed")) s in
  match socket (conn s) with
  | Some sk => socket_disconnect sk s
  | None => s
  end.

Definition handleError (data : value) (s : State) : State :=
  log (ConsoleError data) s.

Definition handleConnected (s : State) : State :=
  let s := updateStatus "info" (t "connection.connected") s in
  (* this.dispatcher.pingAll() *)
  set_pings (S (pings s)) s.

Definition handleMessage (data : value) (s : State) : State :=
  (* this.processor.receive(data) *)
  set_received (received s ++ [data]) s.

(** [getChannel()]: allocates the promise it returns and runs the executor.
    The executor either settles the promise at once or creates the channel,
    stores it, registers the handlers and joins, leaving the promise to the
    "ok" hook of the join. *)
Definition getChannel (s : State) : State * promise_id :=
  let p := length (chan_promises s) in
  let new_promise o s := set_chan_promises (chan_promises s ++ [o]) s in
  match channel (conn s) with
  | Some _ => (new_promise (Fulfilled (channel (conn s))) s, p)
  | None =>
      match socket (conn s) with
      | None =>
          (new_promise
             (Rejected (VStr (t "connection.errors.subscribe.notConnected"))) s,
           p)
      | Some sk =>
          if falsy (channelName (conn s)) then
            (new_promise (Rejected (VStr "No Channel Name Specified")) s, p)
          else
            let name := default EmptyString (channelName (conn s)) in
            let c := length (channels s) in
            let s := new_promise Pending s in
            let s := set_channels (channels s ++ [mkChannel name sk p]) s in
            let s := set_channel (Some c) s in
            (s, p)
      end
  end.

(** The rest of [send] after [await this.getChannel()] has produced
    [channel]. *)
Definition send_resume (payload : ISendPayload) (q : promise_id)
    (channel : option channel_id) (s : State) : State :=
  match channel with
  | None =>
      (* return console.error(...): the async function fulfils with undefined *)
      let s :=
        log (ConsoleError (VStr (t "connection.errors.send.notConnected"))) s in
      set_send_promises (settle q (Fulfilled VUndefined) (send_promises s)) s
  | Some c => channel_push c "chat" payload q s
  end.

(** [send(to, data)].  The promise of the async function is allocated first;
    the body runs up to the await, and past it when the awaited promise is
    already settled. *)
Definition send (to data : string) (s : State) : State * promise_id :=
  let payload := {| to := to; message := data |} in
  let q := length (send_promises s) in
  let s := set_send_promises (send_promises s ++ [Pending]) s in
  let '(s, p) := getChannel s in
  match chan_promises s !! p with
  | Some (Fulfilled channel) => (send_resume payload q channel s, q)
  | Some (Rejected r) =>
      (set_send_promises (settle q (Rejected r) (send_promises s)) s, q)
  | _ => (set_waiters (waiters s ++ [mkWaiter p payload q]) s, q)
  end.

(** [resolve(channel)] in the "ok" hook of the join: fulfils the promise if
    it is still pending and resumes whoever awaits it, the drop-task and any
    suspended [send]. *)
Definition resolve_channel (p : promise_id) (c : channel_id) (s : State)
    : State :=
  match chan_promises s !! p with
  | Some Pending =>
      let s := set_chan_promises (<[p := Fulfilled (Some c)]> (chan_promises s)) s in
      let s :=
        match task s with
        | AwaitChannel p' => if decide (p' = p) then set_task Idle s else s
        | _ => s
        end in
      let resumed := filter (fun w => w_on w = p) (waiters s) in
      let s := set_waiters (filter (fun w => w_on w <> p) (waiters s)) s in
      foldl (fun s w => send_resume (w_payload w) (w_result w) (Some c) s)
            s resumed
  | _ => s
  end.

(** The hooks [getChannel] passes to [channel.join().receive(...)]. *)
Definition join_receive (c : channel_id) (ch : ChannelObj) (a : ack)
    (response : value) (s : State) : State :=
  match a with
  | Ok =>
      let s := set_connected true s in
      let s := handleConnected s in
      resolve_channel (ch_join ch) c s
  | Error => handleError response s
  | Timeout => log (ConsoleInfo (VStr (t "connection.status.timeout"))) s
  end.

(** The hooks [send] passes to [channel.push(...).receive(...)]. *)
Definition push_receive (pu : PushObj) (a : ack) (response : value)
    (s : State) : State :=
  let q := pu_promise pu in
  match a with
  | Ok => set_send_promises (settle q (Fulfilled response) (send_promises s)) s
  | Error => set_send_promises (settle q (Rejected response) (send_promises s)) s
  | Timeout =>
      set_send_promises
        (settle q
           (Rejected (VObj [("reason", t "models.message.errors.timeout")]))
           (send_promises s)) s
  end.

(** [establishConnection.perform()] under [@dropTask]: an instance starts
    only when none is running, and runs up to [yield this.canConnect()];
    otherwise the new instance is dropped. *)
Definition establishConnection_perform (s : State) : State :=
  match task s with
  | Idle => set_task AwaitCanConnect s
  | _ => s
  end.

(** The body of [establishConnection] from the answer of [canConnect] to
    [yield this.getChannel()]. *)
Definition establishConnection_resume (s : State) : State :=
  if negb canConnect || connected (conn s) then set_task Idle s
  else
    let s := updateStatus "info" (t "connection.connecting") s in
    let publicKey := userChannelId in
    let url := relay_socket env in
    let sk := length (sockets s) in
    (* new Socket(...); onError, onClose and connect() are applied to it *)
    let s := set_sockets (sockets s ++ [mkSocket url publicKey true true 1 0]) s in
    let s := set_socket (Some sk) s in
    let s := set_channelName (Some ("user:" +:+ publicKey)) s in
    let '(s, p) := getChannel s in
    match chan_promises s !! p with
    | Some Pending => set_task (AwaitChannel p) s
    | _ => set_task Idle s
    end.

(** [connect()] *)
Definition connect (s : State) : State := establishConnection_perform s.

(** ** Events *)

Inductive Event : Type :=
  | CallConnect
  | CallSend (to data : string)
  | CanConnectSettled
  | JoinReply (c : channel_id) (a : ack) (response : value)
  | PushReply (k : push_id) (a : ack) (response : value)
  | ChannelError (c : channel_id)
  | ChannelClose (c : channel_id)
  | ChannelChat (c : channel_id) (data : value)
  | SocketError (sk : socket_id)
  | SocketClose (sk : socket_id).

(** One turn of the event loop. *)
Definition step (s : State) (e : Event) : State :=
  match e with
  | CallConnect => connect s
  | CallSend to data => fst (send to data s)
  | CanConnectSettled =>
      match task s with
      | AwaitCanConnect => establishConnection_resume s
      | _ => s
      end
  | JoinReply c a response =>
      match channels s !! c with
      | Some ch => join_receive c ch a response s
      | None => s
      end
  | PushReply k a response =>
      match pushes s !! k with
      | Some pu => push_receive pu a response s
      | None => s
      end
  | ChannelError c =>
      match channels s !! c with Some _ => onChannelError s | None => s end
  | ChannelClose c =>
      match channels s !! c with Some _ => onChannelClose s | None => s end
  | ChannelChat c data =>
      match channels s !! c with Some _ => handleMessage data s | None => s end
  | SocketError sk =>
      match sockets s !! sk with
      | Some o => if sk_onError o then onSocketError s else s
      | None => s
      end
  | SocketClose sk =>
      match sockets s !! sk with
      | Some o => if sk_onClose o then onSocketClose s else s
      | None => s
      end
  end.

Definition run (s : State) (es : list Event) : State := foldl step s es.

End Service.

(** ** Sample collaborators *)

(** An identity with the public key [0xAB, 0xCD]; [intl.t] answers with the
    key itself, as it does for a key without a translation. *)
Definition sample_env : Env :=
  {| identity_exists := true;
     identity_publicKey := Some [xab; xcd];
     relay_socket := "wss://relay.example/socket";
     intl_t := fun key => key |}.

(** An identity that exists but has no public key. *)
Definition keyless_env : Env :=
  {| identity_exists := true;
     identity_publicKey := None;
     relay_socket := "wss://relay.example/socket";
     intl_t := fun key => key |}.

(** The service of [sample_env] after [connect()] and the answer of
    [canConnect]: socket open, channel created, join not yet acknowledged. *)
Definition joining : State :=
  Eval vm_compute in run sample_env init [CallConnect; CanConnectSettled].

(** [joining] after the join was acknowledged "ok". *)
Definition joined : State :=
  Eval vm_compute in step sample_env joining (JoinReply 0 Ok VUndefined).

(** ** Invariants of the object store *)

(** The channel is memoized: a channel object exists only once the field is
    set, there is never more than one, and the promise its join hook
    resolves has been allocated. *)
Definition wf (s : State) : Prop :=
  (channel (conn s) = None -> channels s = []) /\
  length (channels s) <= 1 /\
  (forall c ch, channels s !! c = Some ch ->
                ch_join ch < length (chan_promises s)).

(** No promise handed out by [getChannel] is fulfilled with an absent
    channel. *)
Definition never_absent (s : State) : Prop :=
  forall p, chan_promises s !! p <> Some (Fulfilled None).

(** An event other than the "ok" acknowledgment of the join of [c]. *)
Definition not_join_ok (c : channel_id) (e : Event) : Prop :=
  match e with
  | JoinReply c' Ok _ => c' <> c
  | _ => True
  end.

(** The console entry a failed join leaves behind. *)
Definition join_failure_entry (env : Env) (a : ack) (response : value)
    : log_entry :=
  match a with
  | Error => ConsoleError response
  | _ => ConsoleInfo (VStr (t env "connection.status.timeout"))
  end.

(** ** Reachable states *)

(** A socket as [establishConnection] leaves it: opened on the relay's url
    with the user's id as [uid], both handlers registered, [connect()]
    called once. *)
Definition socket_as_opened (env : Env) (o : SocketObj) : Prop :=
  sk_url o = relay_socket env /\
  sk_uid o = userChannelId env /\
  sk_onError o = true /\
  sk_onClose o = true /\
  sk_connects o = 1.

(** A channel as [getChannel] creates it during the first establishment:
    on the user's topic and on the first socket. *)
Definition channel_as_joined (env : Env) (ch : ChannelObj) : Prop :=
  ch_topic ch = "user:" +:+ userChannelId env /\ ch_socket ch = 0.

(** What holds of a fresh service and is kept by every turn of the event
    loop. *)
Definition reach_inv (env : Env) (s : State) : Prop :=
  (socket (conn s) = None <-> channel (conn s) = None) /\
  (channel (conn s) = None -> channelName (conn s) = None) /\
  (channel (conn s) <> None ->
   channelName (conn s) = Some ("user:" +:+ userChannelId env)) /\
  (connected (conn s) = true -> channel (conn s) <> None) /\
  (channel (conn s) = None -> sockets s = []) /\
  (forall sk, socket (conn s) = Some sk -> S sk = length (sockets s)) /\
  waiters s = [] /\
  Forall (socket_as_opened env) (sockets s) /\
  Forall (channel_as_joined env) (channels s).

(** The service of [sample_env] inside [establishConnection], after the
    socket and the channel name are stored and before [getChannel] is
    called. *)
Definition establishing : State :=
  {| conn := {| socket := Some 0; channel := None;
                channelName := Some "user:abcd";
                status := Some "connection.connecting";
                statusLevel := Some "info"; connected := false |};
     task := AwaitCanConnect; waiters := [];
     sockets := [mkSocket "wss://relay.example/socket" "abcd" true true 1 0];
     channels := []; pushes := []; chan_promises := []; send_promises := [];
     console := []; pings := 0; received := [] |}.

(** [joined] after its socket closed. *)
Definition closed : State :=
  Eval vm_compute in step sample_env joined (SocketClose 0).

(** [closed] after a second [connect()] went through. *)
Definition reconnected : State :=
  Eval vm_compute in run sample_env closed [CallConnect; CanConnectSettled].

(** The events on a channel that run [onChannelError] or
    [onChannelClose]. *)
Definition channel_failure (c : nat) (e : Event) : option log_entry :=
  match e with
  | ChannelError c' =>
      if decide (c' = c) then Some (ConsoleLog (VStr "channel errored"))
      else None
  | ChannelClose c' =>
      if decide (c' = c) then Some (ConsoleLog (VStr "channel closed"))
      else None
  | _ => None
  end.

(** Every push has its own promise, and that promise has been allocated. *)
Definition push_inv (s : State) : Prop :=
  (forall k pu, pushes s !! k = Some pu ->
                pu_promise pu < length (send_promises s)) /\
  (forall k k' pu pu',
     pushes s !! k = Some pu -> pushes s !! k' = Some pu' ->
     pu_promise pu = pu_promise pu' -> k = k').

(** The answer of [canConnect] does not arrive during [es]. *)
Definition unanswered (es : list Event) : Prop :=
  Forall (fun e => e <> CanConnectSettled) es.

(** ** Frame lemmas *)

Lemma joining_eq :
  joining = run sample_env init [CallConnect; CanConnectSettled].
Proof. reflexivity. Qed.

Lemma joined_eq :
  joined = run sample_env init
             [CallConnect; CanConnectSettled; JoinReply 0 Ok VUndefined].
Proof. reflexivity. Qed.

Section Frames.

Variable env : Env.

(** Resuming suspended sends with a channel only appends their pushes. *)
Lemma resume_sends (c : channel_id) (ws : list Waiter) (s : State) :
  foldl (fun s w => send_resume env (w_payload w) (w_result w) (Some c) s) s ws
  = set_pushes
      (pushes s ++ map (fun w => mkPush c "chat" (w_payload w) (w_result w)) ws)
      s.
Proof.
  revert s. induction ws as [|w ws IH]; intros s; simpl.
  - rewrite app_nil_r. destruct s; reflexivity.
  - rewrite IH. unfold channel_push, set_pushes; simpl.
    rewrite <- app_assoc. reflexivity.
Qed.

(** What [getChannel] leaves alone. *)
Lemma getChannel_frame (s : State) :
  let s' := fst (getChannel env s) in
  task s' = task s /\ waiters s' = waiters s /\ sockets s' = sockets s /\
  pushes s' = pushes s /\ send_promises s' = send_promises s /\
  console s' = console s /\ pings s' = pings s /\ received s' = received s /\
  socket (conn s') = socket (conn s) /\
  channelName (conn s') = channelName (conn s) /\
  status (conn s') = status (conn s) /\
  statusLevel (conn s') = statusLevel (conn s) /\
  connected (conn s') = connected (conn s).
Proof.
  cbv zeta. unfold getChannel.
  destruct s as [[sk ch name st lv cn] tk ws sks chs pus cps sps co pi re].
  simpl. destruct ch; [simpl; repeat split; reflexivity |].
  destruct sk; [| simpl; repeat split; reflexivity].
  destruct (falsy name); simpl; repeat split; reflexivity.
Qed.

(** With a memoized channel [getChannel] answers at once with it. *)
Lemma getChannel_memoized (s : State) (c : channel_id) :
  channel (conn s) = Some c ->
  getChannel env s =
    (set_chan_promises (chan_promises s ++ [Fulfilled (Some c)]) s,
     length (chan_promises s)).
Proof. intros H. unfold getChannel. rewrite H. reflexivity. Qed.

Lemma lookup_snoc {A : Type} (l : list A) (x : A) :
  (l ++ [x]) !! length l = Some x.
Proof. rewrite lookup_app_r by lia. rewrite Nat.sub_diag. reflexivity. Qed.

Lemma settle_pending {A : Type} (ps : list (promise A)) (p : promise_id)
    (o : promise A) :
  ps !! p = Some Pending -> settle p o ps !! p = Some o.
Proof.
  intros H. unfold settle. rewrite H.
  apply list_lookup_insert_eq. eapply lookup_lt_Some; eassumption.
Qed.

End Frames.

Section Resolve.

Variable env : Env.

(** [resolve(channel)] touches the promise, the drop-task, the suspended
    sends and the pushes they make; nothing else. *)
Lemma resolve_channel_frame (p : promise_id) (c : channel_id) (s : State) :
  let s' := resolve_channel env p c s in
  conn s' = conn s /\ sockets s' = sockets s /\ channels s' = channels s /\
  send_promises s' = send_promises s /\ console s' = console s /\
  pings s' = pings s /\ received s' = received s.
Proof.
  cbv zeta. unfold resolve_channel.
  destruct (chan_promises s !! p) as [[| |]|]; try (repeat split; reflexivity).
  rewrite resume_sends. simpl.
  destruct (task s) as [| |p']; simpl; try (repeat split; reflexivity).
  destruct (decide (p' = p)); simpl; repeat split; reflexivity.
Qed.

Lemma resolve_channel_promises (p : promise_id) (c : channel_id) (s : State) :
  chan_promises (resolve_channel env p c s)
  = settle p (Fulfilled (Some c)) (chan_promises s).
Proof.
  unfold resolve_channel, settle.
  destruct (chan_promises s !! p) as [[| |]|]; try reflexivity.
  rewrite resume_sends. simpl.
  destruct (task s) as [| |p']; simpl; try reflexivity.
  destruct (decide (p' = p)); reflexivity.
Qed.

End Resolve.

Section Store.

Variable env : Env.

(** What a call of [getChannel] does to the memoized channel, the channel
    objects and the promises: either it only hands out a settled promise, or
    (no channel memoized) it creates the one channel and a pending promise
    for its join. *)
Lemma getChannel_cases (s : State) :
  let s' := fst (getChannel env s) in
  (channel (conn s') = channel (conn s) /\
   channels s' = channels s /\
   exists o, chan_promises s' = chan_promises s ++ [o] /\
             o <> Pending /\ o <> Fulfilled None) \/
  (channel (conn s) = None /\
   channel (conn s') = Some (length (channels s)) /\
   exists name sk,
     channels s' =
       channels s ++ [mkChannel name sk (length (chan_promises s))] /\
     chan_promises s' = chan_promises s ++ [Pending]).
Proof.
  cbv zeta. unfold getChannel.
  destruct s as [[sk ch name st lv cn] tk ws sks chs pus cps sps co pi re].
  simpl. destruct ch as [c|]; simpl.
  { left. repeat split. eexists. repeat split; discriminate. }
  destruct sk as [sk|]; simpl.
  2:{ left. repeat split. eexists. repeat split; discriminate. }
  destruct (falsy name); simpl.
  { left. repeat split. eexists. repeat split; discriminate. }
  right. repeat split. do 2 eexists. split; reflexivity.
Qed.

(** The same for one turn of the event loop: the three components are left
    alone, or changed as [getChannel] changes them, or the "ok"
    acknowledgment of a join settles the promise of that join. *)
Lemma step_store (s : State) (e : Event) :
  let s' := step env s e in
  (channel (conn s') = channel (conn s) /\
   channels s' = channels s /\
   chan_promises s' = chan_promises s) \/
  (channel (conn s') = channel (conn s) /\
   channels s' = channels s /\
   exists o, chan_promises s' = chan_promises s ++ [o] /\
             o <> Pending /\ o <> Fulfilled None) \/
  (channel (conn s) = None /\
   channel (conn s') = Some (length (channels s)) /\
   exists name sk,
     channels s' =
       channels s ++ [mkChannel name sk (length (chan_promises s))] /\
     chan_promises s' = chan_promises s ++ [Pending]) \/
  (exists c ch response,
     e = JoinReply c Ok response /\ channels s !! c = Some ch /\
     channel (conn s') = channel (conn s) /\
     channels s' = channels s /\
     chan_promises s' =
       settle (ch_join ch) (Fulfilled (Some c)) (chan_promises s)).
Proof.
  cbv zeta. destruct e as [|to data| |c a r|k a r|c|c|c d|sk|sk]; simpl.
  - left. unfold connect, establishConnection_perform.
    destruct (task s); repeat split; reflexivity.
  - unfold send.
    set (s0 := set_send_promises (send_promises s ++ [Pending]) s).
    pose proof (getChannel_cases s0) as Hcases. cbv zeta in Hcases.
    destruct (getChannel env s0) as [s1 p]. simpl in Hcases.
    right.
    assert (Hsame : forall s2,
              channel (conn s2) = channel (conn s1) ->
              channels s2 = channels s1 ->
              chan_promises s2 = chan_promises s1 ->
              (channel (conn s2) = channel (conn s) /\
               channels s2 = channels s /\
               exists o, chan_promises s2 = chan_promises s ++ [o] /\
                         o <> Pending /\ o <> Fulfilled None) \/
              (channel (conn s) = None /\
               channel (conn s2) = Some (length (channels s)) /\
               exists name sk,
                 channels s2 =
                   channels s ++ [mkChannel name sk (length (chan_promises s))] /\
                 chan_promises s2 = chan_promises s ++ [Pending])).
    { intros s2 -> -> ->. exact Hcases. }
    destruct (chan_promises s1 !! p) as [[|[c|]|r]|]; simpl;
      (destruct (Hsame _ eq_refl eq_refl eq_refl) as [H | H];
       [left | right; left]; exact H).
  - destruct (task s) eqn:Htask; try (left; repeat split; reflexivity).
    unfold establishConnection_resume.
    destruct (negb (canConnect env) || connected (conn s));
      [left; repeat split; reflexivity |].
    match goal with
    | |- context [getChannel env ?x] => set (s0 := x)
    end.
    pose proof (getChannel_cases s0) as Hcases. cbv zeta in Hcases.
    destruct (getChannel env s0) as [s1 p]. simpl in Hcases.
    right.
    destruct (chan_promises s1 !! p) as [[| |]|]; simpl;
      (destruct Hcases as [H | H]; [left | right; left]; exact H).
  - destruct (channels s !! c) as [ch|] eqn:Hch;
      [| left; repeat split; reflexivity].
    destruct a; simpl; try (left; repeat split; reflexivity).
    do 3 right. exists c, ch, r.
    match goal with
    | |- context [resolve_channel env ?p ?c ?x] =>
        destruct (resolve_channel_frame env p c x) as (Hc & _ & Hchs & _);
        rewrite Hc, Hchs, resolve_channel_promises
    end.
    repeat split; first [exact Hch | reflexivity].
  - left. destruct (pushes s !! k) as [pu|]; [| repeat split; reflexivity].
    destruct a; repeat split; reflexivity.
  - left. destruct (channels s !! c); [| repeat split; reflexivity].
    unfold onChannelError. simpl.
    destruct (socket (conn s)); repeat split; reflexivity.
  - left. destruct (channels s !! c); [| repeat split; reflexivity].
    unfold onChannelClose. simpl.
    destruct (socket (conn s)); repeat split; reflexivity.
  - left. destruct (channels s !! c); repeat split; reflexivity.
  - left. destruct (sockets s !! sk) as [o|]; [| repeat split; reflexivity].
    destruct (sk_onError o); repeat split; reflexivity.
  - left. destruct (sockets s !! sk) as [o|]; [| repeat split; reflexivity].
    destruct (sk_onClose o); repeat split; reflexivity.
Qed.

End Store.

Section Invariants.

Variable env : Env.

Lemma settle_length {A : Type} (p : promise_id) (o : promise A)
    (ps : list (promise A)) :
  length (settle p o ps) = length ps.
Proof.
  unfold settle. destruct (ps !! p) as [[| |]|]; try reflexivity.
  apply length_insert.
Qed.

Lemma settle_lookup {A : Type} (p i : promise_id) (o : promise A)
    (ps : list (promise A)) :
  settle p o ps !! i = ps !! i \/
  (i = p /\ ps !! p = Some Pending /\ settle p o ps !! i = Some o).
Proof.
  unfold settle. destruct (ps !! p) as [[| |]|] eqn:Hp; try (left; reflexivity).
  destruct (decide (i = p)) as [-> | Hne].
  - right. repeat split.
    apply list_lookup_insert_eq. eapply lookup_lt_Some; eassumption.
  - left. apply list_lookup_insert_ne. congruence.
Qed.

Lemma wf_init : wf init.
Proof. repeat split; simpl; [lia | intros c ch H; discriminate]. Qed.

(** Every turn of the event loop keeps the channel memoized. *)
Lemma wf_step (s : State) (e : Event) : wf s -> wf (step env s e).
Proof.
  intros (Hmemo & Hlen & Hjoin).
  destruct (step_store env s e)
    as [(Hc & Hchs & Hps) | [(Hc & Hchs & o & Hps & _) |
        [(Hnone & Hc & name & sk & Hchs & Hps) |
         (c & ch & r & _ & _ & Hc & Hchs & Hps)]]];
    unfold wf; rewrite ?Hc, ?Hchs, ?Hps.
  - repeat split; assumption.
  - repeat split; try assumption.
    intros c ch H. rewrite length_app. simpl. specialize (Hjoin c ch H). lia.
  - rewrite (Hmemo Hnone). simpl. repeat split; [discriminate | lia |].
    intros [|c] ch H; simpl in H; [| discriminate].
    injection H as <-. simpl. rewrite length_app. simpl. lia.
  - rewrite settle_length. repeat split; assumption.
Qed.



(** Every turn of the event loop keeps the promises of [getChannel] free of
    an absent channel. *)
Lemma never_absent_step (s : State) (e : Event) :
  never_absent s -> never_absent (step env s e).
Proof.
  intros Hs p.
  destruct (step_store env s e)
    as [(_ & _ & Hps) | [(_ & _ & o & Hps & _ & Ho) |
        [(_ & _ & name & sk & _ & Hps) |
         (c & ch & r & _ & _ & _ & _ & Hps)]]];
    rewrite Hps.
  - apply Hs.
  - destruct (decide (p < length (chan_promises s))) as [Hlt | Hge].
    + rewrite lookup_app_l by exact Hlt. apply Hs.
    + rewrite lookup_app_r by lia.
      destruct (p - length (chan_promises s)) as [|n]; simpl.
      * congruence.
      * rewrite lookup_nil. discriminate.
  - destruct (decide (p < length (chan_promises s))) as [Hlt | Hge].
    + rewrite lookup_app_l by exact Hlt. apply Hs.
    + rewrite lookup_app_r by lia.
      destruct (p - length (chan_promises s)) as [|n]; simpl.
      * discriminate.
      * rewrite lookup_nil. discriminate.
  - destruct (settle_lookup (ch_join ch) p (Fulfilled (Some c))
                            (chan_promises s)) as [Heq | (_ & _ & Heq)];
      rewrite Heq; [apply Hs | discriminate].
Qed.

Lemma never_absent_run (es : list Event) (s : State) :
  never_absent s -> never_absent (run env s es).
Proof.
  revert s. induction es as [|e es IH]; intros s H; simpl; [exact H |].
  apply IH, never_absent_step, H.
Qed.

(** A pending join promise is settled by nothing but the "ok"
    acknowledgment of its own join. *)
Lemma pending_step (s : State) (e : Event) (c : channel_id) (ch : ChannelObj) :
  wf s ->
  channels s !! c = Some ch ->
  chan_promises s !! ch_join ch = Some Pending ->
  not_join_ok c e ->
  channels (step env s e) !! c = Some ch /\
  chan_promises (step env s e) !! ch_join ch = Some Pending.
Proof.
  intros (Hmemo & Hlen & Hjoin) Hch Hp Hne.
  pose proof (lookup_lt_Some _ _ _ Hp) as Hlt.
  destruct (step_store env s e)
    as [(_ & Hchs & Hps) | [(_ & Hchs & o & Hps & _) |
        [(Hnone & _ & name & sk & Hchs & Hps) |
         (c' & ch' & r & -> & Hch' & _ & Hchs & Hps)]]];
    rewrite Hchs, Hps.
  - split; assumption.
  - split; [assumption |]. rewrite lookup_app_l by exact Hlt. exact Hp.
  - rewrite (Hmemo Hnone) in Hch. discriminate.
  - split; [assumption |]. simpl in Hne.
    pose proof (lookup_lt_Some _ _ _ Hch).
    pose proof (lookup_lt_Some _ _ _ Hch'). lia.
Qed.

Lemma pending_run (es : list Event) (s : State) (c : channel_id)
    (ch : ChannelObj) :
  wf s ->
  channels s !! c = Some ch ->
  chan_promises s !! ch_join ch = Some Pending ->
  Forall (not_join_ok c) es ->
  chan_promises (run env s es) !! ch_join ch = Some Pending.
Proof.
  revert s. induction es as [|e es IH]; intros s Hwf Hch Hp Hes; simpl.
  - exact Hp.
  - inversion Hes as [|e' es' He Hes']; subst.
    destruct (pending_step s e c ch Hwf Hch Hp He) as [Hch' Hp'].
    apply IH; [apply wf_step, Hwf | exact Hch' | exact Hp' | exact Hes'].
Qed.

(** While an establishment is in flight, [connect()] changes nothing. *)
Lemma connect_dropped (s : State) : task s <> Idle -> connect s = s.
Proof.
  intros H. unfold connect, establishConnection_perform.
  destruct (task s); [contradiction | reflexivity | reflexivity].
Qed.

Lemma run_app (s : State) (es1 es2 : list Event) :
  run env s (es1 ++ es2) = run env (run env s es1) es2.
Proof. unfold run. apply foldl_app. Qed.

Lemma run_connects_dropped (n : nat) (s : State) :
  task s <> Idle -> run env s (replicate n CallConnect) = s.
Proof.
  intros H. induction n as [|n IH]; simpl; [reflexivity |].
  rewrite connect_dropped by exact H. exact IH.
Qed.

End Invariants.

(** The state of a fresh service once [connect()] has passed its guard. *)
Lemma establish_from_init (env : Env) :
  identity_exists env = true ->
  step env (connect init) CanConnectSettled
  = {| conn := {| socket := Some 0; channel := Some 0;
                  channelName := Some ("user:" +:+ userChannelId env);
                  status := Some (intl_t env "connection.connecting");
                  statusLevel := Some "info"; connected := false |};
       task := AwaitChannel 0; waiters := [];
       sockets := [mkSocket (relay_socket env) (userChannelId env)
                            true true 1 0];
       channels := [mkChannel ("user:" +:+ userChannelId env) 0 0];
       pushes := []; chan_promises := [Pending]; send_promises := [];
       console := []; pings := 0; received := [] |}.
Proof.
  intros Hex. simpl. unfold establishConnection_resume, canConnect.
  rewrite Hex. reflexivity.
Qed.

(** [send] writes nothing to the console in the turn in which it is
    called. *)
Lemma send_console (env : Env) (to data : string) (s : State) :
  console (fst (send env to data s)) = console s.
Proof.
  unfold send, getChannel.
  destruct s as [[sk ch name st lv cn] tk ws sks chs pus cps sps co pi re].
  simpl. destruct ch as [c|]; simpl.
  { rewrite lookup_snoc. reflexivity. }
  destruct sk as [sk|]; simpl.
  2:{ rewrite lookup_snoc. reflexivity. }
  destruct (falsy name); simpl; rewrite lookup_snoc; reflexivity.
Qed.

(** Without a memoized channel and without a socket, [send] returns a
    promise rejected with the reason [getChannel] rejected with; it logs
    nothing and creates nothing. *)
Lemma send_without_socket (env : Env) (to data : string) (s : State) :
  channel (conn s) = None ->
  socket (conn s) = None ->
  let s' := fst (send env to data s) in
  send_promises s' !! snd (send env to data s)
  = Some (Rejected (VStr (intl_t env "connection.errors.subscribe.notConnected")))
  /\ console s' = console s /\ sockets s' = sockets s /\ conn s' = conn s.
Proof.
  intros Hch Hsk. cbv zeta. unfold send, getChannel.
  destruct s as [[sk ch name st lv cn] tk ws sks chs pus cps sps co pi re].
  simpl in *. subst. simpl. rewrite lookup_snoc. simpl.
  repeat split. apply settle_pending, lookup_snoc.
Qed.

(** The drop-task is bookkeeping: apart from the answer of [canConnect], no
    turn of the event loop looks at it to decide what else to do. *)
Lemma send_set_task (env : Env) (to data : string) (k : TaskState) (s : State) :
  fst (send env to data (set_task k s)) = set_task k (fst (send env to data s)).
Proof.
  unfold send, getChannel.
  destruct s as [[sk ch name st lv cn] tk ws sks chs pus cps sps co pi re].
  simpl. destruct ch as [c|]; simpl.
  { rewrite lookup_snoc. reflexivity. }
  destruct sk as [sk|]; simpl.
  2:{ rewrite lookup_snoc. reflexivity. }
  destruct (falsy name); simpl; rewrite lookup_snoc; reflexivity.
Qed.

Lemma resolve_channel_set_task (env : Env) (p : promise_id) (c : channel_id)
    (k : TaskState) (s : State) :
  set_task Idle (resolve_channel env p c (set_task k s))
  = set_task Idle (resolve_channel env p c s).
Proof.
  unfold resolve_channel.
  change (chan_promises (set_task k s)) with (chan_promises s).
  destruct (chan_promises s !! p) as [[| |]|]; try reflexivity.
  rewrite !resume_sends. simpl.
  destruct k as [| |p1]; destruct (task s) as [| |p2]; simpl;
    repeat match goal with
           | |- context [decide (?a = ?b)] => destruct (decide (a = b))
           end; reflexivity.
Qed.

Lemma step_set_task (env : Env) (s : State) (k : TaskState) (e : Event) :
  e <> CanConnectSettled \/ identity_exists env = false ->
  set_task Idle (step env (set_task k s) e) = set_task Idle (step env s e).
Proof.
  intros He.
  destruct e as [|to data| |c a r|q a r|c|c|c d|sk|sk]; simpl.
  - unfold connect, establishConnection_perform. simpl.
    destruct k; destruct (task s); reflexivity.
  - rewrite send_set_task. reflexivity.
  - destruct He as [He | He]; [contradiction |].
    unfold establishConnection_resume, canConnect. rewrite He. simpl.
    destruct k; destruct (task s); reflexivity.
  - destruct (channels s !! c) as [ch|]; [| reflexivity].
    destruct a; simpl; try reflexivity.
    apply (resolve_channel_set_task env (ch_join ch) c k
             (handleConnected env (set_connected true s))).
  - destruct (pushes s !! q) as [pu|]; [destruct a |]; reflexivity.
  - destruct (channels s !! c); [| reflexivity].
    unfold onChannelError. simpl. destruct (socket (conn s)); reflexivity.
  - destruct (channels s !! c); [| reflexivity].
    unfold onChannelClose. simpl. destruct (socket (conn s)); reflexivity.
  - destruct (channels s !! c); reflexivity.
  - destruct (sockets s !! sk) as [o|]; [destruct (sk_onError o) |]; reflexivity.
  - destruct (sockets s !! sk) as [o|]; [destruct (sk_onClose o) |]; reflexivity.
Qed.

Lemma set_task_eq (a b : State) :
  set_task Idle a = set_task Idle b -> a = set_task (task a) b.
Proof.
  destruct a, b. unfold set_task. simpl. intros H. injection H as -> -> -> -> -> -> -> -> -> ->.
  reflexivity.
Qed.

Lemma run_set_task (env : Env) (es : list Event) (s : State) (k : TaskState) :
  Forall (fun e => e <> CanConnectSettled \/ identity_exists env = false) es ->
  set_task Idle (run env (set_task k s) es) = set_task Idle (run env s es).
Proof.
  intros Hes. revert s k.
  induction Hes as [|e es He Hes IH]; intros s k; simpl; [reflexivity |].
  rewrite (set_task_eq _ _ (step_set_task env s k e He)). apply IH.
Qed.

Lemma connect_set_task (s : State) : connect s = set_task (task (connect s)) s.
Proof.
  unfold connect, establishConnection_perform.
  destruct s as [cn tk ws sks chs pus cps sps co pi re].
  destruct tk; reflexivity.
Qed.

(** An establishment waiting for the answer of [canConnect] keeps waiting
    until the answer arrives. *)
Lemma awaiting_answer_step (env : Env) (s : State) (e : Event) :
  task s = AwaitCanConnect ->
  e <> CanConnectSettled ->
  task (step env s e) = AwaitCanConnect.
Proof.
  intros Htask He.
  destruct e as [|to data| |c a r|q a r|c|c|c d|sk|sk]; simpl.
  - unfold connect, establishConnection_perform. rewrite Htask. exact Htask.
  - rewrite <- Htask.
    replace s with (set_task (task s) s) at 1 by (destruct s; reflexivity).
    rewrite send_set_task. reflexivity.
  - contradiction.
  - destruct (channels s !! c) as [ch|]; [| exact Htask].
    destruct a; simpl; try exact Htask.
    unfold resolve_channel.
    change (chan_promises (handleConnected env (set_connected true s)))
      with (chan_promises s).
    destruct (chan_promises s !! ch_join ch) as [[| |]|]; try exact Htask.
    rewrite resume_sends. simpl. rewrite Htask. simpl. exact Htask.
  - destruct (pushes s !! q) as [pu|]; [destruct a |]; exact Htask.
  - destruct (channels s !! c); [| exact Htask].
    unfold onChannelError. simpl. destruct (socket (conn s)); exact Htask.
  - destruct (channels s !! c); [| exact Htask].
    unfold onChannelClose. simpl. destruct (socket (conn s)); exact Htask.
  - destruct (channels s !! c); exact Htask.
  - destruct (sockets s !! sk) as [o|]; [destruct (sk_onError o) |];
      exact Htask.
  - destruct (sockets s !! sk) as [o|]; [destruct (sk_onClose o) |];
      exact Htask.
Qed.

Lemma awaiting_answer_run (env : Env) (es : list Event) (s : State) :
  task s = AwaitCanConnect ->
  unanswered es ->
  task (run env s es) = AwaitCanConnect.
Proof.
  intros Htask Hes. revert s Htask.
  induction Hes as [|e es He Hes IH]; intros s Htask; simpl; [exact Htask |].
  apply IH, awaiting_answer_step; assumption.
Qed.

(** ** The claims *)

(** C1, on the code: [send] before any socket or channel exists.  The
    promise it returns is rejected with the "subscribe" not-connected
    message of [getChannel]; nothing is written to the console, and no
    socket is created. *)
Theorem send_before_connect_rejects :
  let s' := fst (send sample_env "user:ef01" "encryptedpayload" init) in
  let q := snd (send sample_env "user:ef01" "encryptedpayload" init) in
  send_promises s' !! q
  = Some (Rejected (VStr "connection.errors.subscribe.notConnected")) /\
  console s' = [] /\
  sockets s' = [] /\
  socket (conn s') = None.
Proof. cbv zeta. repeat split; reflexivity. Qed.

(** C2. When the join of a channel is acknowledged "error" or "timeout" the
    event is only logged: the state after the acknowledgment is the state
    before it with one console entry added.  The promise [getChannel]
    returned for that join, pending before, is neither fulfilled nor
    rejected by it, and it stays pending through whatever follows (further
    "error" and "timeout" acknowledgments included) as long as the join is
    not acknowledged "ok". *)
Theorem join_failure_only_logs (env : Env) (s : State) (c : channel_id)
    (ch : ChannelObj) (a : ack) (response : value) (es : list Event) :
  wf s ->
  channels s !! c = Some ch ->
  chan_promises s !! ch_join ch = Some Pending ->
  a <> Ok ->
  Forall (not_join_ok c) es ->
  let s' := step env s (JoinReply c a response) in
  s' = log (join_failure_entry env a response) s /\
  chan_promises s' !! ch_join ch = Some Pending /\
  chan_promises (run env s' es) !! ch_join ch = Some Pending.
Proof.
  intros Hwf Hch Hp Ha Hes. cbv zeta.
  assert (Hstep : step env s (JoinReply c a response)
                  = log (join_failure_entry env a response) s).
  { simpl. rewrite Hch. destruct a; [contradiction | reflexivity | reflexivity]. }
  rewrite Hstep. split; [reflexivity |]. split; [exact Hp |].
  apply (pending_run env es _ c ch); [exact Hwf | exact Hch | exact Hp | exact Hes].
Qed.

Lemma join_failure_only_logs_witness :
  let s' := step sample_env joining (JoinReply 0 Error (VStr "unauthorized")) in
  console s' = [ConsoleError (VStr "unauthorized")] /\
  chan_promises
    (run sample_env s'
         [JoinReply 0 Timeout VUndefined; CallSend "user:ef01" "hello";
          SocketError 0; CallConnect; JoinReply 0 Error VUndefined]) !! 0
  = Some Pending.
Proof.
  assert (Hwf : wf joining).
  { repeat split; simpl; [discriminate | lia |].
    intros [|c] ch H; simpl in H; [injection H as <-; simpl; lia | discriminate]. }
  assert (Hes : Forall (not_join_ok 0)
                  [JoinReply 0 Timeout VUndefined; CallSend "user:ef01" "hello";
                   SocketError 0; CallConnect; JoinReply 0 Error VUndefined]).
  { repeat (constructor; [exact I |]). constructor. }
  assert (Ha : Error <> Ok) by discriminate.
  pose proof (join_failure_only_logs sample_env joining 0 _ Error
                (VStr "unauthorized") _ Hwf eq_refl eq_refl Ha Hes)
    as (Hlog & _ & Hrun).
  cbv zeta. split; [rewrite Hlog; reflexivity | exact Hrun].
Defined.

(** C3. A [connect()] made while an establishment is in flight is dropped:
    it leaves the state as it is, and nothing is queued, since whatever
    happens afterwards happens exactly as if the call had not been made.  On
    a fresh service with an identity, any number of further [connect()]
    calls, made before [canConnect] answers or while the join is awaited,
    leave exactly one socket and one channel object, before and after the
    join is acknowledged. *)
Theorem second_connect_dropped (env : Env) (s : State) (es : list Event)
    (n m : nat) (response : value) :
  identity_exists env = true ->
  task s <> Idle ->
  connect s = s /\
  run env s (CallConnect :: es) = run env s es /\
  let s1 := run env init (CallConnect :: replicate n CallConnect ++
                          CanConnectSettled :: replicate m CallConnect) in
  let s2 := step env s1 (JoinReply 0 Ok response) in
  task s1 <> Idle /\
  length (sockets s1) = 1 /\ length (channels s1) = 1 /\
  length (sockets s2) = 1 /\ length (channels s2) = 1 /\
  task s2 = Idle /\ connected (conn s2) = true.
Proof.
  intros Hex Hfl. split; [apply connect_dropped, Hfl |].
  split; [simpl; rewrite connect_dropped by exact Hfl; reflexivity |].
  cbv zeta.
  assert (Hs1 : run env init (CallConnect :: replicate n CallConnect ++
                              CanConnectSettled :: replicate m CallConnect)
                = step env (connect init) CanConnectSettled).
  { change (run env init (CallConnect :: ?l)) with (run env (connect init) l).
    rewrite run_app, run_connects_dropped by (simpl; discriminate).
    change (run env ?x (CanConnectSettled :: ?l))
      with (run env (step env x CanConnectSettled) l).
    apply run_connects_dropped.
    rewrite establish_from_init by exact Hex. simpl. discriminate. }
  rewrite Hs1, establish_from_init by exact Hex.
  repeat split; try reflexivity. simpl. discriminate.
Qed.

Lemma second_connect_dropped_witness :
  let s := run sample_env init [CallConnect; CallConnect; CanConnectSettled;
                                CallConnect; JoinReply 0 Ok VUndefined] in
  connect joining = joining /\
  length (sockets s) = 1 /\ length (channels s) = 1.
Proof.
  assert (Hfl : task joining <> Idle) by (simpl; discriminate).
  pose proof (second_connect_dropped sample_env joining [] 1 1 VUndefined
                eq_refl Hfl) as (Hdrop & _ & _ & _ & _ & Hs & Hc & _).
  cbv zeta. split; [exact Hdrop |].
  vm_compute in Hs, Hc |- *. split; [exact Hs | exact Hc].
Defined.

(** C4, on the code: an identity that exists but has no public key.  The
    establishment stores the channel name ["user:"], which is not empty,
    opens the socket with an empty [uid] and joins a channel on that
    name. *)
Theorem channel_name_without_public_key :
  let s' := run keyless_env init [CallConnect; CanConnectSettled] in
  identity_publicKey keyless_env = None /\
  channelName (conn s') = Some "user:" /\
  falsy (channelName (conn s')) = false /\
  sockets s' = [mkSocket "wss://relay.example/socket" EmptyString true true 1 0] /\
  channels s' = [mkChannel "user:" 0 0].
Proof. cbv zeta. repeat split; reflexivity. Qed.

(** C5. When the join of a channel is acknowledged "ok", the service sets
    [connected = true], sets the status to the localized "connected" message
    at level info, calls [dispatcher.pingAll()] exactly once, and fulfils
    the promise [getChannel] returned for that join with the joined
    channel. *)
Theorem join_ok_connects (env : Env) (s : State) (c : channel_id)
    (ch : ChannelObj) (response : value) :
  channels s !! c = Some ch ->
  chan_promises s !! ch_join ch = Some Pending ->
  let s' := step env s (JoinReply c Ok response) in
  connected (conn s') = true /\
  status (conn s') = Some (intl_t env "connection.connected") /\
  statusLevel (conn s') = Some "info" /\
  pings s' = S (pings s) /\
  chan_promises s' !! ch_join ch = Some (Fulfilled (Some c)).
Proof.
  intros Hch Hp. cbv zeta. simpl. rewrite Hch. unfold join_receive.
  set (s1 := handleConnected env (set_connected true s)).
  destruct (resolve_channel_frame env (ch_join ch) c s1)
    as (Hconn & _ & _ & _ & _ & Hpings & _).
  rewrite Hconn, Hpings, resolve_channel_promises.
  repeat split; try reflexivity.
  apply settle_pending. exact Hp.
Qed.

Lemma join_ok_connects_witness :
  let s' := step sample_env joining (JoinReply 0 Ok VUndefined) in
  connected (conn joining) = false /\
  connected (conn s') = true /\
  pings joining = 0 /\ pings s' = 1 /\
  chan_promises s' !! 0 = Some (Fulfilled (Some 0)).
Proof.
  pose proof (join_ok_connects sample_env joining 0 _ VUndefined
                eq_refl eq_refl) as (Hc & _ & _ & Hp & Hr).
  cbv zeta. split; [reflexivity |]. split; [exact Hc |].
  split; [reflexivity |]. split; [exact Hp | exact Hr].
Defined.

(** C6. With a channel available, [send(to, data)] pushes exactly one event,
    named "chat" and carrying [{to, message: data}], on that channel, and
    returns a pending promise which the acknowledgment of that push settles:
    "ok" fulfils it with the relay's payload, "error" rejects it with the
    relay's payload, "timeout" rejects it with [{reason: t(timeout key)}]. *)
Theorem send_pushes_chat (env : Env) (s : State) (c : channel_id)
    (to data : string) :
  channel (conn s) = Some c ->
  let s1 := fst (send env to data s) in
  let q := snd (send env to data s) in
  let k := length (pushes s) in
  pushes s1 = pushes s ++ [mkPush c "chat" (mkPayload to data) q] /\
  send_promises s1 !! q = Some Pending /\
  (forall response,
     send_promises (step env s1 (PushReply k Ok response)) !! q
     = Some (Fulfilled response)) /\
  (forall response,
     send_promises (step env s1 (PushReply k Error response)) !! q
     = Some (Rejected response)) /\
  (forall response,
     send_promises (step env s1 (PushReply k Timeout response)) !! q
     = Some (Rejected
               (VObj [("reason", intl_t env "models.message.errors.timeout")]))).
Proof.
  intros Hch. cbv zeta. unfold send.
  rewrite (getChannel_memoized env _ c) by exact Hch.
  simpl. rewrite lookup_snoc. simpl.
  assert (Hq : (send_promises s ++ [Pending]) !! length (send_promises s)
               = Some (@Pending value)) by apply lookup_snoc.
  split; [reflexivity |]. split; [exact Hq |].
  repeat split; intros response; rewrite lookup_snoc; simpl;
    apply settle_pending; exact Hq.
Qed.

Lemma send_pushes_chat_witness :
  let s1 := fst (send sample_env "user:ef01" "encryptedpayload" joined) in
  pushes s1 = [mkPush 0 "chat" (mkPayload "user:ef01" "encryptedpayload") 0] /\
  send_promises (step sample_env s1 (PushReply 0 Ok (VStr "delivered"))) !! 0
  = Some (Fulfilled (VStr "delivered")).
Proof.
  pose proof (send_pushes_chat sample_env joined 0 "user:ef01"
                "encryptedpayload" eq_refl) as (Hp & _ & Hok & _).
  cbv zeta. split; [exact Hp | exact (Hok (VStr "delivered"))].
Defined.

(** The spec's example: public key bytes [0xAB, 0xCD] encode as ["abcd"]. *)
Example toHex_abcd : toHex [xab; xcd] = "abcd".
Proof. reflexivity. Qed.

(** C7. With a public key present, the establishment that passes its guard
    stores the channel name ["user:" + hex(publicKey)] and opens the socket
    on the relay's url with the connection parameter [uid = hex(publicKey)];
    the channel it then creates carries that name as its topic.  Nothing
    here needs the key to be non-empty. *)
Theorem channel_name_of_public_key (env : Env) (s : State)
    (publicKey : list byte) :
  identity_exists env = true ->
  identity_publicKey env = Some publicKey ->
  task s = AwaitCanConnect ->
  connected (conn s) = false ->
  let s' := step env s CanConnectSettled in
  channelName (conn s') = Some ("user:" +:+ toHex publicKey) /\
  socket (conn s') = Some (length (sockets s)) /\
  sockets s' =
    sockets s ++ [mkSocket (relay_socket env) (toHex publicKey) true true 1 0] /\
  (channel (conn s) = None ->
   channels s' =
     channels s ++ [mkChannel ("user:" +:+ toHex publicKey)
                              (length (sockets s))
                              (length (chan_promises s))]).
Proof.
  intros Hex Hkey Htask Hconn. cbv zeta. simpl. rewrite Htask.
  unfold establishConnection_resume, canConnect, userChannelId.
  rewrite Hex, Hkey, Hconn. simpl.
  destruct s as [[sk ch name st lv cn] tk ws sks chs pus cps sps co pi re].
  simpl in *. unfold getChannel. simpl.
  destruct ch as [c|]; simpl.
  - rewrite lookup_snoc. simpl. repeat split; try reflexivity. discriminate.
  - rewrite lookup_snoc. simpl. repeat split; reflexivity.
Qed.

Lemma channel_name_of_public_key_witness :
  let s' := step sample_env (connect init) CanConnectSettled in
  channelName (conn s') = Some "user:abcd" /\
  sockets s' = [mkSocket "wss://relay.example/socket" "abcd" true true 1 0] /\
  channels s' = [mkChannel "user:abcd" 0 0].
Proof.
  pose proof (channel_name_of_public_key sample_env (connect init) [xab; xcd]
                eq_refl eq_refl eq_refl eq_refl) as (Hn & _ & Hs & Hch).
  cbv zeta. rewrite Hn, Hs, (Hch eq_refl). repeat split; reflexivity.
Defined.

(** C8, as the claim states it, fails: [connected] is read when [canConnect]
    answers, not when [connect()] is called.  On a connected service whose
    socket closes between the call and the answer, the call goes on to
    open a second socket, which the same events without the call do not. *)
Lemma connect_while_connected_reopens :
  connected (conn joined) = true /\
  length (sockets (run sample_env joined [SocketClose 0; CanConnectSettled]))
  = 1 /\
  length (sockets (run sample_env joined
                       [CallConnect; SocketClose 0; CanConnectSettled]))
  = 2 /\
  socket (conn (run sample_env joined
                    [CallConnect; SocketClose 0; CanConnectSettled]))
  = Some 1.
Proof. repeat split; reflexivity. Qed.

(** C8, amended.  A [connect()] call is a no-op whenever the identity does
    not exist, or the connection is connected at the moment [canConnect]
    answers: whatever events [es] come between the call and the answer, the
    service ends as it would have without the call, with the same fields
    (socket, channel, channelName, connected, status, statusLevel), the
    same socket and channel objects, and everything else the same except
    the bookkeeping of the drop-task. *)
Theorem connect_noop_when_answered (env : Env) (s : State) (es : list Event) :
  identity_exists env = false \/
  (unanswered es /\ connected (conn (run env s (CallConnect :: es))) = true) ->
  let s0 := run env s es in
  let s' := run env s (CallConnect :: es ++ [CanConnectSettled]) in
  conn s' = conn s0 /\
  sockets s' = sockets s0 /\
  channels s' = channels s0 /\
  s' = set_task (task s') s0.
Proof.
  intros Hguard. cbv zeta.
  assert (Hes : Forall (fun e => e <> CanConnectSettled \/
                                 identity_exists env = false) es).
  { destruct Hguard as [Hex | [Hes _]].
    - apply Forall_forall. intros e _. right. exact Hex.
    - eapply Forall_impl; [exact Hes |]. intros e He. left. exact He. }
  change (run env s (CallConnect :: es ++ [CanConnectSettled]))
    with (run env (connect s) (es ++ [CanConnectSettled])).
  change (run env s (CallConnect :: es)) with (run env (connect s) es)
    in Hguard.
  rewrite run_app.
  set (s1 := run env (connect s) es) in *.
  assert (H1 : set_task Idle s1 = set_task Idle (run env s es)).
  { unfold s1. rewrite connect_set_task. apply run_set_task, Hes. }
  assert (H2 : set_task Idle (run env s1 [CanConnectSettled])
               = set_task Idle s1).
  { unfold run. simpl. destruct (task s1); try reflexivity.
    unfold establishConnection_resume, canConnect.
    destruct Hguard as [-> | [_ ->]]; [reflexivity |].
    rewrite orb_true_r. reflexivity. }
  rewrite H1 in H2. apply set_task_eq in H2. rewrite H2.
  repeat split; reflexivity.
Qed.

Lemma connect_noop_when_answered_witness :
  let s0 := run sample_env joined [SocketError 0; ChannelChat 0 (VStr "hi")] in
  let s' := run sample_env joined
              [CallConnect; SocketError 0; ChannelChat 0 (VStr "hi");
               CanConnectSettled] in
  conn s' = conn s0 /\ length (sockets s') = 1 /\ length (channels s') = 1.
Proof.
  assert (Hes : unanswered [SocketError 0; ChannelChat 0 (VStr "hi")]).
  { repeat (constructor; [discriminate |]). constructor. }
  assert (Hc : connected
                 (conn (run sample_env joined
                            [CallConnect; SocketError 0;
                             ChannelChat 0 (VStr "hi")])) = true)
    by (vm_compute; reflexivity).
  pose proof (connect_noop_when_answered sample_env joined
                [SocketError 0; ChannelChat 0 (VStr "hi")]
                (or_intror (conj Hes Hc))) as (Hconn & Hs & Hch & _).
  cbv zeta in *. simpl app in Hconn, Hs, Hch.
  rewrite Hconn, Hs, Hch. repeat split; reflexivity.
Defined.

(** C9. Handling a socket "close" event sets the status to the localized
    close message at level info and clears [connected]; the stored socket
    and channel handles and the channel name are left as they were, and so
    are the socket and channel objects themselves.  The event reaches the
    handler for every socket on which [onClose] was registered. *)
Theorem socket_close_keeps_handles (env : Env) (s : State) (sk : socket_id)
    (o : SocketObj) :
  sockets s !! sk = Some o ->
  sk_onClose o = true ->
  let s' := step env s (SocketClose sk) in
  s' = onSocketClose env s /\
  statusLevel (conn s') = Some "info" /\
  status (conn s') = Some (intl_t env "connection.status.socket.close") /\
  connected (conn s') = false /\
  socket (conn s') = socket (conn s) /\
  channel (conn s') = channel (conn s) /\
  channelName (conn s') = channelName (conn s) /\
  sockets s' = sockets s /\
  channels s' = channels s.
Proof.
  intros Hsk Hreg. cbv zeta. simpl. rewrite Hsk, Hreg.
  repeat split; reflexivity.
Qed.

Lemma socket_close_keeps_handles_witness :
  let s' := step sample_env joined (SocketClose 0) in
  connected (conn joined) = true /\
  connected (conn s') = false /\
  socket (conn s') = Some 0 /\
  channel (conn s') = Some 0 /\
  channelName (conn s') = Some "user:abcd".
Proof.
  pose proof (socket_close_keeps_handles sample_env joined 0 _ eq_refl eq_refl)
    as (_ & _ & _ & Hc & Hs & Hch & Hn & _).
  cbv zeta. rewrite Hc, Hs, Hch, Hn. repeat split; reflexivity.
Defined.

(** C10. The promise [getChannel] returns is never fulfilled with an absent
    channel.  At the call it is fulfilled with the memoized channel, or
    rejected (no channel memoized and no socket or no channel name), or
    left pending with the channel just created; later only the "ok" hook
    of the join fulfils it, with that channel, so no run of the service
    ever holds a promise fulfilled with nothing.  The branch of [send] for a
    falsy awaited channel is therefore never taken: it is the only place
    where [send] writes to the console, and the console is unchanged by the
    two turns in which the body of [send] runs, the call itself and the
    "ok" acknowledgment that resumes a suspended [send]. *)
Theorem getChannel_never_absent (env : Env) (s : State) (es : list Event)
    (to data : string) (c : channel_id) (response : value) :
  let s1 := fst (getChannel env s) in
  let p := snd (getChannel env s) in
  ((exists c', channel (conn s) = Some c' /\
               chan_promises s1 !! p = Some (Fulfilled (Some c'))) \/
   (exists r, channel (conn s) = None /\
              (socket (conn s) = None \/ falsy (channelName (conn s)) = true) /\
              chan_promises s1 !! p = Some (Rejected r)) \/
   (exists c', channel (conn s) = None /\ channel (conn s1) = Some c' /\
               chan_promises s1 !! p = Some Pending)) /\
  never_absent (run env init es) /\
  console (fst (send env to data s)) = console s /\
  console (step env s (JoinReply c Ok response)) = console s.
Proof.
  cbv zeta. split; [| split; [| split]].
  - unfold getChannel.
    destruct s as [[sk ch name st lv cn] tk ws sks chs pus cps sps co pi re].
    simpl. destruct ch as [c'|]; simpl.
    { left. exists c'. split; [reflexivity | apply lookup_snoc]. }
    right. destruct sk as [sk|]; simpl.
    2:{ left. eexists. split; [reflexivity |].
        split; [left; reflexivity | apply lookup_snoc]. }
    destruct (falsy name) eqn:Hname; simpl.
    { left. eexists. split; [reflexivity |].
      split; [right; reflexivity | apply lookup_snoc]. }
    right. eexists. split; [reflexivity |].
    split; [reflexivity | apply lookup_snoc].
  - apply never_absent_run. intros p. simpl. rewrite lookup_nil. discriminate.
  - apply send_console.
  - simpl. destruct (channels s !! c) as [ch|]; [| reflexivity].
    unfold join_receive.
    match goal with
    | |- context [resolve_channel env ?p ?c ?x] =>
        destruct (resolve_channel_frame env p c x) as (_ & _ & _ & _ & H & _)
    end.
    rewrite H. reflexivity.
Qed.

(** ** Further properties of the service *)

Lemma resolve_channel_waiters (env : Env) (p : promise_id) (c : channel_id)
    (s : State) :
  waiters s = [] -> waiters (resolve_channel env p c s) = [].
Proof.
  intros H. unfold resolve_channel.
  destruct (chan_promises s !! p) as [[| |]|]; try exact H.
  rewrite resume_sends. simpl.
  destruct (task s) as [| |p']; simpl; rewrite ?H; try reflexivity.
  destruct (decide (p' = p)); simpl; rewrite H; reflexivity.
Qed.

Lemma reach_inv_init (env : Env) : reach_inv env init.
Proof.
  unfold reach_inv; simpl.
  repeat split; try reflexivity; try discriminate; try constructor;
    try (intros; contradiction).
Qed.

Lemma reach_inv_disconnect (env : Env) (s : State) (sk : socket_id) :
  reach_inv env s -> reach_inv env (socket_disconnect sk s).
Proof.
  intros (Hsc & Hn0 & Hn1 & Hcon & Hsk0 & Hsk & Hw & Hso & Hch).
  unfold reach_inv, socket_disconnect. simpl.
  repeat split; try assumption; try apply Hsc.
  - intros H. rewrite (Hsk0 H). reflexivity.
  - intros sk' H. rewrite length_alter. apply Hsk, H.
  - apply Forall_alter; [exact Hso |].
    intros o _ (H1 & H2 & H3 & H4 & H5). repeat split; assumption.
Qed.

(** Every turn of the event loop keeps [reach_inv]. *)
Lemma reach_inv_step (env : Env) (s : State) (e : Event) :
  wf s -> reach_inv env s -> reach_inv env (step env s e).
Proof.
  intros (Hmemo & Hlen & Hjoin) (Hsc & Hn0 & Hn1 & Hcon & Hsk0 & Hsk & Hw & Hso & Hch).
  destruct e as [|to data| |c a r|k a r|c|c|c d|sk|sk]; simpl.
  - unfold connect, establishConnection_perform.
    destruct (task s); repeat split; simpl; try assumption; apply Hsc.
  - unfold send, getChannel.
    destruct s as [[sk ch name st lv cn] tk ws sks chs pus cps sps co pi re].
    simpl in *. destruct ch as [c|]; simpl.
    { rewrite lookup_snoc. simpl. repeat split; simpl; try assumption; apply Hsc. }
    destruct Hsc as [_ Hsc]. rewrite (Hsc eq_refl). simpl.
    rewrite lookup_snoc. simpl.
    repeat split; simpl; try assumption; try discriminate; auto.
  - destruct (task s) eqn:Htask;
      try (repeat split; simpl; try assumption; apply Hsc).
    unfold establishConnection_resume, getChannel.
    destruct s as [[sk ch name st lv cn] tk ws sks chs pus cps sps co pi re].
    simpl in *.
    destruct (negb (canConnect env) || cn) eqn:Hguard; simpl.
    { repeat split; simpl; try assumption; apply Hsc. }
    apply orb_false_elim in Hguard as [_ ->].
    destruct ch as [c|]; simpl.
    + rewrite lookup_snoc. simpl. 
      repeat split; simpl; try discriminate; try assumption.
      * intros sk' [= <-]. rewrite length_app. simpl. lia.
      * apply Forall_app. split; [assumption |]. repeat constructor.
    + rewrite lookup_snoc. simpl.
      rewrite (Hsk0 eq_refl), (Hmemo eq_refl). simpl.
      repeat split; simpl; try discriminate; try assumption.
      * intros sk' [= <-]. reflexivity.
      * repeat constructor.
      * repeat constructor.
  - destruct (channels s !! c) as [ch|] eqn:Hc;
      [| repeat split; simpl; try assumption; apply Hsc].
    assert (Hsome : channel (conn s) <> None).
    { intros Hnone. rewrite (Hmemo Hnone) in Hc. discriminate. }
    destruct a; simpl.
    + match goal with
      | |- context [resolve_channel env ?p ?c ?x] =>
          pose proof (resolve_channel_frame env p c x) as Hf;
          pose proof (resolve_channel_waiters env p c x Hw) as Hw'
      end.
      cbv zeta in Hf. destruct Hf as (Hconn & Hsks & Hchs & _).
      unfold reach_inv. rewrite Hconn, Hsks, Hchs, Hw'. simpl.
      repeat split; simpl; try assumption; try apply Hsc.
      intros _. exact Hsome.
    + repeat split; simpl; try assumption; apply Hsc.
    + repeat split; simpl; try assumption; apply Hsc.
  - destruct (pushes s !! k) as [pu|];
      [destruct a |]; repeat split; simpl; try assumption; apply Hsc.
  - destruct (channels s !! c);
      [| repeat split; simpl; try assumption; apply Hsc].
    unfold onChannelError.
    destruct (socket (conn (log (ConsoleLog (VStr "channel errored")) s)));
      [apply reach_inv_disconnect |];
      repeat split; simpl; try assumption; apply Hsc.
  - destruct (channels s !! c);
      [| repeat split; simpl; try assumption; apply Hsc].
    unfold onChannelClose.
    destruct (socket (conn (log (ConsoleLog (VStr "channel closed")) s)));
      [apply reach_inv_disconnect |];
      repeat split; simpl; try assumption; apply Hsc.
  - destruct (channels s !! c);
      repeat split; simpl; try assumption; apply Hsc.
  - destruct (sockets s !! sk) as [o|]; [destruct (sk_onError o) |];
      repeat split; simpl; try assumption; apply Hsc.
  - destruct (sockets s !! sk) as [o|]; [destruct (sk_onClose o) |];
      repeat split; simpl; try assumption; try apply Hsc; discriminate.
Qed.

Lemma reach_inv_run (env : Env) (es : list Event) (s : State) :
  wf s -> reach_inv env s -> reach_inv env (run env s es).
Proof.
  revert s. induction es as [|e es IH]; intros s Hwf H; simpl; [exact H |].
  apply IH; [apply wf_step, Hwf | apply reach_inv_step; assumption].
Qed.

(** [send] with a memoized channel, in full. *)
Lemma send_with_channel (env : Env) (to data : string) (s : State)
    (c : channel_id) :
  channel (conn s) = Some c ->
  send env to data s
  = (set_pushes
       (pushes s ++ [mkPush c "chat" (mkPayload to data)
                            (length (send_promises s))])
       (set_chan_promises (chan_promises s ++ [Fulfilled (Some c)])
          (set_send_promises (send_promises s ++ [Pending]) s)),
     length (send_promises s)).
Proof.
  intros Hch. unfold send.
  rewrite (getChannel_memoized env _ c) by exact Hch.
  simpl. rewrite lookup_snoc. reflexivity.
Qed.




(** X3. In every state a fresh service can reach, [send] never suspends at
    its await.  Without a channel the returned promise is rejected at once
    with the "subscribe" not-connected message and nothing is pushed; with
    a channel, joined or still joining, one "chat" push is made at once and
    the returned promise is pending.  Either way no [send] is left
    waiting; the fields of the service, its sockets and the console are
    untouched. *)
Theorem send_never_waits (env : Env) (es : list Event) (to data : string) :
  let s := run env init es in
  let s' := fst (send env to data s) in
  let q := snd (send env to data s) in
  ((channel (conn s) = None /\
    send_promises s' !! q
    = Some (Rejected
              (VStr (intl_t env "connection.errors.subscribe.notConnected"))) /\
    pushes s' = pushes s) \/
   (exists c, channel (conn s) = Some c /\
              send_promises s' !! q = Some Pending /\
              pushes s' = pushes s ++ [mkPush c "chat" (mkPayload to data) q])) /\
  waiters s' = [] /\
  conn s' = conn s /\
  sockets s' = sockets s /\
  console s' = console s.
Proof.
  cbv zeta. set (s := run env init es).
  pose proof (reach_inv_run env es init wf_init (reach_inv_init env))
    as (Hsc & _ & _ & _ & _ & _ & Hw & _).
  fold s in Hsc, Hw. clearbody s.
  destruct (channel (conn s)) as [c|] eqn:Hch.
  - rewrite (send_with_channel env to data s c Hch). simpl.
    split; [| repeat split; exact Hw].
    right. exists c. repeat split. apply lookup_snoc.
  - assert (Hsk : socket (conn s) = None) by (apply Hsc; reflexivity).
    destruct (send_without_socket env to data s Hch Hsk)
      as (Hrej & Hco & Hsks & Hconn).
    split; [left; repeat split; [exact Hrej |] |
            split; [| split; [exact Hconn | split; [exact Hsks | exact Hco]]]].
    + unfold send, getChannel. simpl. rewrite Hch, Hsk. simpl.
      rewrite lookup_snoc. reflexivity.
    + unfold send, getChannel. simpl. rewrite Hch, Hsk. simpl.
      rewrite lookup_snoc. exact Hw.
Qed.

(** How one turn of the event loop changes [connected]. *)
Lemma step_connected (env : Env) (s : State) (e : Event) :
  connected (conn (step env s e))
  = match e with
    | JoinReply c Ok _ =>
        match channels s !! c with
        | Some _ => true
        | None => connected (conn s)
        end
    | SocketClose sk =>
        match sockets s !! sk with
        | Some o => if sk_onClose o then false else connected (conn s)
        | None => connected (conn s)
        end
    | _ => connected (conn s)
    end.
Proof.
  destruct e as [|to data| |c a r|k a r|c|c|c d|sk|sk]; simpl.
  - unfold connect, establishConnection_perform. destruct (task s); reflexivity.
  - unfold send.
    match goal with
    | |- context [getChannel env ?x] =>
        pose proof (getChannel_frame env x) as Hf; cbv zeta in Hf;
        destruct Hf as (_ & _ & _ & _ & _ & _ & _ & _ & _ & _ & _ & _ & Hf);
        destruct (getChannel env x) as [s1 p]
    end.
    simpl in Hf. rewrite <- Hf.
    destruct (chan_promises s1 !! p) as [[|[c|]|r]|]; reflexivity.
  - destruct (task s); try reflexivity.
    unfold establishConnection_resume.
    destruct (negb (canConnect env) || connected (conn s)); [reflexivity |].
    match goal with
    | |- context [getChannel env ?x] =>
        pose proof (getChannel_frame env x) as Hf; cbv zeta in Hf;
        destruct Hf as (_ & _ & _ & _ & _ & _ & _ & _ & _ & _ & _ & _ & Hf);
        destruct (getChannel env x) as [s1 p]
    end.
    simpl in Hf. rewrite <- Hf.
    destruct (chan_promises s1 !! p) as [[| |]|]; reflexivity.
  - destruct (channels s !! c) as [ch|]; [| destruct a; reflexivity].
    destruct a; try reflexivity. simpl.
    match goal with
    | |- context [resolve_channel env ?p ?c ?x] =>
        destruct (resolve_channel_frame env p c x) as (Hc & _)
    end.
    rewrite Hc. reflexivity.
  - destruct (pushes s !! k) as [pu|]; [destruct a |]; reflexivity.
  - destruct (channels s !! c); [| reflexivity].
    unfold onChannelError. simpl. destruct (socket (conn s)); reflexivity.
  - destruct (channels s !! c); [| reflexivity].
    unfold onChannelClose. simpl. destruct (socket (conn s)); reflexivity.
  - destruct (channels s !! c); reflexivity.
  - destruct (sockets s !! sk) as [o|]; [destruct (sk_onError o) |]; reflexivity.
  - destruct (sockets s !! sk) as [o|]; [destruct (sk_onClose o) |]; reflexivity.
Qed.

(** X4. [connected] changes in two ways only: the "ok" acknowledgment of a
    join sets it, and a socket "close" clears it.  No other event touches
    it: not a socket error, not a channel error or close, not a failed
    join, not [connect] or [send]. *)
Theorem connected_changes (env : Env) (s : State) (e : Event) :
  connected (conn (step env s e)) <> connected (conn s) ->
  (exists c response,
     e = JoinReply c Ok response /\ connected (conn (step env s e)) = true) \/
  (exists sk, e = SocketClose sk /\ connected (conn (step env s e)) = false).
Proof.
  rewrite step_connected.
  destruct e as [|to data| |c a r|k a r|c|c|c d|sk|sk];
    try (intros H; contradiction).
  - destruct a; try (intros H; contradiction).
    destruct (channels s !! c); [| intros H; contradiction].
    intros _. left. exists c, r. split; reflexivity.
  - destruct (sockets s !! sk) as [o|]; [| intros H; contradiction].
    destruct (sk_onClose o); [| intros H; contradiction].
    intros _. right. exists sk. split; reflexivity.
Qed.

Lemma connected_changes_witness :
  (exists c response,
     SocketClose 0 = JoinReply c Ok response /\
     connected (conn (step sample_env joined (SocketClose 0))) = true) \/
  (exists sk, SocketClose 0 = SocketClose sk /\
              connected (conn (step sample_env joined (SocketClose 0))) = false).
Proof.
  apply (connected_changes sample_env joined (SocketClose 0)).
  simpl. discriminate.
Defined.

(** X5. Without a memoized channel [getChannel] fails fast: with no socket
    it rejects with the localized "subscribe" not-connected message, and
    with a socket but an undefined or empty channel name it rejects with
    ['No Channel Name Specified'].  The socket is looked at first.  In both
    cases the rejected promise is all that is added to the state: no
    channel is created or stored. *)
Theorem getChannel_rejects (env : Env) (s : State) :
  channel (conn s) = None ->
  socket (conn s) = None \/ falsy (channelName (conn s)) = true ->
  let reason :=
    match socket (conn s) with
    | None => intl_t env "connection.errors.subscribe.notConnected"
    | Some _ => "No Channel Name Specified"
    end in
  getChannel env s
  = (set_chan_promises (chan_promises s ++ [Rejected (VStr reason)]) s,
     length (chan_promises s)) /\
  chan_promises (fst (getChannel env s)) !! snd (getChannel env s)
  = Some (Rejected (VStr reason)).
Proof.
  intros Hch Hor. cbv zeta.
  assert (Heq : getChannel env s
                = (set_chan_promises
                     (chan_promises s ++
                      [Rejected (VStr match socket (conn s) with
                                      | None => intl_t env
                                          "connection.errors.subscribe.notConnected"
                                      | Some _ => "No Channel Name Specified"
                                      end)]) s,
                   length (chan_promises s))).
  { unfold getChannel. rewrite Hch.
    destruct (socket (conn s)) as [sk|]; [| reflexivity].
    destruct Hor as [Hor | Hor]; [discriminate |]. rewrite Hor. reflexivity. }
  rewrite Heq. split; [reflexivity |]. simpl. apply lookup_snoc.
Qed.

Lemma getChannel_rejects_witness :
  chan_promises (fst (getChannel sample_env init)) !! 0
  = Some (Rejected (VStr "connection.errors.subscribe.notConnected")) /\
  channels (fst (getChannel sample_env init)) = [] /\
  chan_promises (fst (getChannel sample_env (set_channelName None establishing)))
    !! 0
  = Some (Rejected (VStr "No Channel Name Specified")) /\
  channels (fst (getChannel sample_env (set_channelName None establishing))) = [].
Proof.
  pose proof (getChannel_rejects sample_env init eq_refl (or_introl eq_refl))
    as (Heq0 & Hp0).
  pose proof (getChannel_rejects sample_env (set_channelName None establishing)
                eq_refl (or_intror eq_refl)) as (Heq & Hp).
  cbv zeta in Heq0, Hp0, Heq, Hp.
  split; [exact Hp0 |]. split; [rewrite Heq0; reflexivity |].
  split; [exact Hp |]. rewrite Heq. reflexivity.
Defined.

(** X6. The channel is created by the first [getChannel] that finds a
    socket and a channel name, and memoized before its join is
    acknowledged: that call returns a pending promise, and a second call
    made while the join is still pending creates nothing and returns
    another promise, already fulfilled with the same channel, while the
    first promise is still pending. *)
Theorem getChannel_twice (env : Env) (s : State) (sk : socket_id)
    (name : string) :
  channel (conn s) = None ->
  socket (conn s) = Some sk ->
  channelName (conn s) = Some name ->
  falsy (Some name) = false ->
  let s1 := fst (getChannel env s) in
  let p1 := snd (getChannel env s) in
  let s2 := fst (getChannel env s1) in
  let p2 := snd (getChannel env s1) in
  let c := length (channels s) in
  channels s1 = channels s ++ [mkChannel name sk p1] /\
  channel (conn s1) = Some c /\
  chan_promises s1 !! p1 = Some Pending /\
  channels s2 = channels s1 /\
  conn s2 = conn s1 /\
  p2 <> p1 /\
  chan_promises s2 !! p1 = Some Pending /\
  chan_promises s2 !! p2 = Some (Fulfilled (Some c)).
Proof.
  intros Hch Hsk Hname Hfalsy. cbv zeta.
  assert (Heq : getChannel env s
                = (set_channel (Some (length (channels s)))
                     (set_channels
                        (channels s ++
                         [mkChannel name sk (length (chan_promises s))])
                        (set_chan_promises (chan_promises s ++ [Pending]) s)),
                   length (chan_promises s))).
  { unfold getChannel. rewrite Hch, Hsk, Hname, Hfalsy. reflexivity. }
  rewrite Heq. cbn [fst snd].
  rewrite (getChannel_memoized env _ (length (channels s))) by reflexivity.
  simpl. rewrite length_app. simpl.
  repeat split.
  - apply lookup_snoc.
  - lia.
  - rewrite lookup_app_l by (rewrite length_app; simpl; lia). apply lookup_snoc.
  - replace (length (chan_promises s) + 1)
      with (length (chan_promises s ++ [@Pending (option nat)]))
      by (rewrite length_app; reflexivity).
    apply lookup_snoc.
Qed.

Lemma getChannel_twice_witness :
  let s1 := fst (getChannel sample_env establishing) in
  let s2 := fst (getChannel sample_env s1) in
  channels s2 = [mkChannel "user:abcd" 0 0] /\
  chan_promises s2 !! 0 = Some Pending /\
  chan_promises s2 !! 1 = Some (Fulfilled (Some 0)).
Proof.
  pose proof (getChannel_twice sample_env establishing 0 "user:abcd"
                eq_refl eq_refl eq_refl eq_refl)
    as (Hc1 & _ & _ & Hc2 & _ & _ & Hp1 & Hp2).
  cbv zeta in *. split; [rewrite Hc2, Hc1; reflexivity |].
  split; [exact Hp1 | exact Hp2].
Defined.

(** [establishing] is the state in which [establishConnection] of
    [sample_env] calls [getChannel]. *)
Lemma establishing_joining :
  set_task (AwaitChannel 0) (fst (getChannel sample_env establishing)) = joining.
Proof. reflexivity. Qed.

(** X7. Once stored, the channel handle is never replaced or cleared and no
    further channel object is created, whatever happens afterwards:
    reconnecting, sending, errors and closes all keep the one channel. *)
Theorem channel_kept (env : Env) (s : State) (c : channel_id)
    (es : list Event) :
  channel (conn s) = Some c ->
  channel (conn (run env s es)) = Some c /\
  channels (run env s es) = channels s.
Proof.
  revert s. induction es as [|e es IH]; intros s Hch; simpl.
  - split; [exact Hch | reflexivity].
  - destruct (step_store env s e)
      as [(Hc & Hchs & _) | [(Hc & Hchs & _) |
          [(Hnone & _) | (_ & _ & _ & _ & _ & Hc & Hchs & _)]]];
      try congruence;
      (rewrite <- Hchs; apply IH; rewrite Hc; exact Hch).
Qed.

Lemma channel_kept_witness :
  channel (conn reconnected) = Some 0 /\
  channels reconnected = [mkChannel "user:abcd" 0 0].
Proof.
  exact (channel_kept sample_env joining 0
           [JoinReply 0 Ok VUndefined; SocketClose 0; CallConnect;
            CanConnectSettled] eq_refl).
Defined.

(** X8. A channel "error" or "close" event logs and calls [disconnect()]
    once on the socket the service currently holds, which after a
    reconnect is not the socket the channel was created on; every other
    socket and every field of the service, [connected] included, is left
    as it was. *)
Theorem channel_failure_disconnects (env : Env) (s : State) (c : channel_id)
    (ch : ChannelObj) (e : Event) (entry : log_entry) (sk : socket_id)
    (o : SocketObj) :
  channels s !! c = Some ch ->
  channel_failure c e = Some entry ->
  socket (conn s) = Some sk ->
  sockets s !! sk = Some o ->
  let s' := step env s e in
  console s' = console s ++ [entry] /\
  sockets s' !! sk
  = Some (mkSocket (sk_url o) (sk_uid o) (sk_onError o) (sk_onClose o)
                   (sk_connects o) (S (sk_disconnects o))) /\
  (forall sk', sk' <> sk -> sockets s' !! sk' = sockets s !! sk') /\
  conn s' = conn s.
Proof.
  intros Hch He Hsk Ho. cbv zeta.
  assert (Hstep : step env s e = socket_disconnect sk (log entry s)).
  { destruct e as [|to data| |c' a r|k a r|c'|c'|c' d|sk'|sk'];
      simpl in He; try discriminate;
      destruct (decide (c' = c)) as [-> |]; try discriminate;
      injection He as <-; simpl; rewrite Hch;
      [unfold onChannelError | unfold onChannelClose];
      simpl; rewrite Hsk; reflexivity. }
  rewrite Hstep. unfold socket_disconnect. simpl.
  repeat split.
  - rewrite list_lookup_alter_eq, Ho. reflexivity.
  - intros sk' Hne. apply list_lookup_alter_ne. congruence.
Qed.

Lemma channel_failure_disconnects_witness :
  let s' := step sample_env reconnected (ChannelError 0) in
  ch_socket <$> channels reconnected !! 0 = Some 0 /\
  sk_disconnects <$> sockets s' !! 0 = Some 0 /\
  sk_disconnects <$> sockets s' !! 1 = Some 1 /\
  console s' = [ConsoleLog (VStr "channel errored")].
Proof.
  assert (H01 : 0 <> 1) by discriminate.
  pose proof (channel_failure_disconnects sample_env reconnected 0 _
                (ChannelError 0) _ 1 _ eq_refl eq_refl eq_refl eq_refl)
    as (Hco & Hsk & Hother & _).
  cbv zeta in *. split; [reflexivity |].
  rewrite (Hother 0 H01), Hsk, Hco. repeat split; reflexivity.
Defined.

(** X9. Every "chat" event received on a channel of the service is handed
    to [processor.receive] as it came, in the order of arrival, with
    nothing filtered out or duplicated; nothing else in the state
    changes. *)
Theorem chat_forwarded (env : Env) (s : State) (c : channel_id)
    (ch : ChannelObj) (ds : list value) :
  channels s !! c = Some ch ->
  run env s (map (ChannelChat c) ds) = set_received (received s ++ ds) s.
Proof.
  revert s. induction ds as [|d ds IH]; intros s Hch; simpl.
  - rewrite app_nil_r. destruct s; reflexivity.
  - rewrite Hch. rewrite IH by exact Hch.
    unfold handleMessage, set_received. simpl.
    rewrite <- app_assoc. reflexivity.
Qed.

Lemma chat_forwarded_witness :
  received (run sample_env joined
              [ChannelChat 0 (VStr "a"); ChannelChat 0 (VStr "b");
               ChannelChat 0 (VStr "a")])
  = [VStr "a"; VStr "b"; VStr "a"].
Proof.
  pose proof (chat_forwarded sample_env joined 0 _
                [VStr "a"; VStr "b"; VStr "a"] eq_refl) as H.
  simpl map in H. rewrite H. reflexivity.
Defined.

(** An establishment that passes its guard on a service that memoizes its
    channel. *)
Lemma reestablish_with_channel (env : Env) (s : State) (c : channel_id) :
  identity_exists env = true ->
  task s = AwaitCanConnect ->
  connected (conn s) = false ->
  channel (conn s) = Some c ->
  let s' := step env s CanConnectSettled in
  sockets s' =
    sockets s ++ [mkSocket (relay_socket env) (userChannelId env)
                           true true 1 0] /\
  socket (conn s') = Some (length (sockets s)) /\
  channel (conn s') = Some c /\
  channels s' = channels s /\
  connected (conn s') = false /\
  status (conn s') = Some (intl_t env "connection.connecting") /\
  task s' = Idle /\
  pings s' = pings s.
Proof.
  intros Hex Htask Hconn Hch. cbv zeta. simpl. rewrite Htask.
  unfold establishConnection_resume, canConnect.
  rewrite Hex, Hconn. simpl.
  destruct s as [[sk ch name st lv cn] tk ws sks chs pus cps sps co pi re].
  simpl in *. subst. unfold getChannel. simpl. rewrite lookup_snoc. simpl.
  repeat split; reflexivity.
Qed.

(** X10. A [connect()] made on an idle service goes through when
    [canConnect] answers, whatever events [es] came in between.  If at
    that moment the service is not connected but still memoizes its
    channel (as after a socket close), the establishment opens a new
    socket and stores it, but starts no join: [getChannel] answers with
    the old channel, the establishment ends at once, [connected] stays
    false, the status is left at "connecting" and no presence ping is
    sent. *)
Theorem reconnect_reuses_channel (env : Env) (s : State) (es : list Event)
    (c : channel_id) :
  identity_exists env = true ->
  task s = Idle ->
  unanswered es ->
  let s1 := run env s (CallConnect :: es) in
  connected (conn s1) = false ->
  channel (conn s1) = Some c ->
  let s' := run env s (CallConnect :: es ++ [CanConnectSettled]) in
  sockets s' =
    sockets s1 ++ [mkSocket (relay_socket env) (userChannelId env)
                            true true 1 0] /\
  socket (conn s') = Some (length (sockets s1)) /\
  channel (conn s') = Some c /\
  channels s' = channels s1 /\
  connected (conn s') = false /\
  status (conn s') = Some (intl_t env "connection.connecting") /\
  task s' = Idle /\
  pings s' = pings s1.
Proof.
  intros Hex Htask Hes. cbv zeta. intros Hconn Hch.
  change (run env s (CallConnect :: es ++ [CanConnectSettled]))
    with (run env (connect s) (es ++ [CanConnectSettled])).
  change (run env s (CallConnect :: es)) with (run env (connect s) es) in *.
  rewrite run_app.
  assert (Hwait : task (run env (connect s) es) = AwaitCanConnect).
  { apply awaiting_answer_run; [| exact Hes].
    unfold connect, establishConnection_perform. rewrite Htask. reflexivity. }
  exact (reestablish_with_channel env _ c Hex Hwait Hconn Hch).
Qed.

Lemma reconnect_reuses_channel_witness :
  let s' := run sample_env closed
              [CallConnect; SocketError 0; JoinReply 0 Error VUndefined;
               CanConnectSettled] in
  length (sockets closed) = 1 /\
  length (sockets s') = 2 /\
  channels s' = channels closed /\
  connected (conn s') = false /\
  task s' = Idle /\
  pings s' = pings closed.
Proof.
  assert (Hes : unanswered [SocketError 0; JoinReply 0 Error VUndefined]).
  { repeat (constructor; [discriminate |]). constructor. }
  assert (Hc : connected
                 (conn (run sample_env closed
                            [CallConnect; SocketError 0;
                             JoinReply 0 Error VUndefined])) = false)
    by (vm_compute; reflexivity).
  assert (Hch : channel
                  (conn (run sample_env closed
                             [CallConnect; SocketError 0;
                              JoinReply 0 Error VUndefined])) = Some 0)
    by (vm_compute; reflexivity).
  pose proof (reconnect_reuses_channel sample_env closed
                [SocketError 0; JoinReply 0 Error VUndefined] 0
                eq_refl eq_refl Hes Hc Hch)
    as (Hs & _ & _ & Hchs & Hcon & _ & Ht & Hp).
  cbv zeta in *. simpl app in Hs, Hchs, Hcon, Ht, Hp.
  split; [reflexivity |].
  rewrite Hs, Hchs, Hcon, Ht, Hp. repeat split; vm_compute; reflexivity.
Defined.

(** While the establishment awaits its join, no event but the "ok"
    acknowledgment of that join ends it, and none opens a socket. *)
Lemma inflight_step (env : Env) (s : State) (e : Event) (c : channel_id)
    (ch : ChannelObj) :
  wf s ->
  channels s !! c = Some ch ->
  task s = AwaitChannel (ch_join ch) ->
  not_join_ok c e ->
  task (step env s e) = AwaitChannel (ch_join ch) /\
  length (sockets (step env s e)) = length (sockets s).
Proof.
  intros (Hmemo & Hlen & Hjoin) Hch Htask Hne.
  destruct e as [|to data| |c' a r|k a r|c'|c'|c' d|sk|sk]; simpl.
  - unfold connect, establishConnection_perform. rewrite Htask.
    split; [exact Htask | reflexivity].
  - unfold send.
    match goal with
    | |- context [getChannel env ?x] =>
        pose proof (getChannel_frame env x) as Hf; cbv zeta in Hf;
        destruct Hf as (Ht & _ & Hs & _);
        destruct (getChannel env x) as [s1 p]
    end.
    simpl in Ht, Hs. rewrite <- Htask, <- Ht, <- Hs.
    destruct (chan_promises s1 !! p) as [[|[c0|]|r]|]; split; reflexivity.
  - rewrite Htask. split; [exact Htask | reflexivity].
  - destruct (channels s !! c') as [ch'|] eqn:Hch';
      [| split; [exact Htask | reflexivity]].
    destruct a; simpl; try (split; [exact Htask | reflexivity]).
    simpl in Hne.
    pose proof (lookup_lt_Some _ _ _ Hch).
    pose proof (lookup_lt_Some _ _ _ Hch'). lia.
  - destruct (pushes s !! k) as [pu|]; [destruct a |];
      (split; [exact Htask | reflexivity]).
  - destruct (channels s !! c'); [| split; [exact Htask | reflexivity]].
    unfold onChannelError. simpl.
    destruct (socket (conn s)); simpl; rewrite ?length_alter;
      (split; [exact Htask | reflexivity]).
  - destruct (channels s !! c'); [| split; [exact Htask | reflexivity]].
    unfold onChannelClose. simpl.
    destruct (socket (conn s)); simpl; rewrite ?length_alter;
      (split; [exact Htask | reflexivity]).
  - destruct (channels s !! c'); (split; [exact Htask | reflexivity]).
  - destruct (sockets s !! sk) as [o|]; [destruct (sk_onError o) |];
      (split; [exact Htask | reflexivity]).
  - destruct (sockets s !! sk) as [o|]; [destruct (sk_onClose o) |];
      (split; [exact Htask | reflexivity]).
Qed.

(** X11. An establishment whose join is never acknowledged "ok" never
    ends: through join errors, join timeouts, socket errors and closes and
    anything else, the drop-task stays suspended at [getChannel], so every
    later [connect()] is dropped and no further socket is opened.  There is
    no retry. *)
Theorem establishment_stuck (env : Env) (s : State) (c : channel_id)
    (ch : ChannelObj) (es : list Event) :
  wf s ->
  channels s !! c = Some ch ->
  chan_promises s !! ch_join ch = Some Pending ->
  task s = AwaitChannel (ch_join ch) ->
  Forall (not_join_ok c) es ->
  let s' := run env s es in
  task s' = AwaitChannel (ch_join ch) /\
  length (sockets s') = length (sockets s) /\
  connect s' = s'.
Proof.
  intros Hwf Hch Hp Htask Hes. cbv zeta.
  assert (H : task (run env s es) = AwaitChannel (ch_join ch) /\
              length (sockets (run env s es)) = length (sockets s)).
  { revert s Hwf Hch Hp Htask.
    induction Hes as [|e es He Hes IH]; intros s Hwf Hch Hp Htask; simpl.
    - split; [exact Htask | reflexivity].
    - destruct (inflight_step env s e c ch Hwf Hch Htask He) as [Ht Hs].
      destruct (pending_step env s e c ch Hwf Hch Hp He) as [Hch' Hp'].
      rewrite <- Hs. apply IH; [apply wf_step, Hwf | assumption ..]. }
  destruct H as [Ht Hs]. repeat split; [exact Ht | exact Hs |].
  apply connect_dropped. rewrite Ht. discriminate.
Qed.

Lemma establishment_stuck_witness :
  let s' := run sample_env joining
              [JoinReply 0 Error (VStr "unauthorized"); SocketClose 0;
               CallConnect; CanConnectSettled; JoinReply 0 Timeout VUndefined;
               CallConnect; CanConnectSettled] in
  task s' = AwaitChannel 0 /\ length (sockets s') = 1.
Proof.
  assert (Hwf : wf joining).
  { repeat split; simpl; [discriminate | lia |].
    intros [|c] ch H; simpl in H; [injection H as <-; simpl; lia | discriminate]. }
  assert (Hes : Forall (not_join_ok 0)
                  [JoinReply 0 Error (VStr "unauthorized"); SocketClose 0;
                   CallConnect; CanConnectSettled;
                   JoinReply 0 Timeout VUndefined;
                   CallConnect; CanConnectSettled]).
  { repeat (constructor; [exact I |]). constructor. }
  pose proof (establishment_stuck sample_env joining 0 _ _ Hwf
                eq_refl eq_refl eq_refl Hes) as (Ht & Hs & _).
  cbv zeta. split; [exact Ht | exact Hs].
Defined.

Lemma resolve_channel_pushes (env : Env) (p : promise_id) (c : channel_id)
    (s : State) :
  waiters s = [] -> pushes (resolve_channel env p c s) = pushes s.
Proof.
  intros H. unfold resolve_channel.
  destruct (chan_promises s !! p) as [[| |]|]; try reflexivity.
  rewrite resume_sends. simpl.
  destruct (task s) as [| |p']; simpl; rewrite ?H; simpl;
    try apply app_nil_r.
  destruct (decide (p' = p)); simpl; rewrite H; apply app_nil_r.
Qed.

(** With no [send] suspended, a turn of the event loop either keeps the
    pushes and the number of [send] promises, or is a [send]: one promise
    more, and at most one push more, settled by that promise. *)
Lemma step_pushes (env : Env) (s : State) (e : Event) :
  waiters s = [] ->
  (pushes (step env s e) = pushes s /\
   length (send_promises (step env s e)) = length (send_promises s)) \/
  (length (send_promises (step env s e)) = S (length (send_promises s)) /\
   (pushes (step env s e) = pushes s \/
    exists c event payload,
      pushes (step env s e)
      = pushes s ++ [mkPush c event payload (length (send_promises s))])).
Proof.
  intros Hw.
  destruct e as [|to data| |c a r|k a r|c|c|c d|sk|sk]; simpl.
  - left. unfold connect, establishConnection_perform.
    destruct (task s); split; reflexivity.
  - right. unfold send.
    match goal with
    | |- context [getChannel env ?x] =>
        pose proof (getChannel_frame env x) as Hf; cbv zeta in Hf;
        destruct Hf as (_ & _ & _ & Hpu & Hsp & _);
        destruct (getChannel env x) as [s1 p]
    end.
    simpl in Hpu, Hsp.
    destruct (chan_promises s1 !! p) as [[|[c|]|r]|]; simpl;
      rewrite ?settle_length, Hsp, Hpu, length_app; simpl;
      (split; [lia |]); try (left; reflexivity).
    right. do 3 eexists. reflexivity.
  - left. destruct (task s); try (split; reflexivity).
    unfold establishConnection_resume.
    destruct (negb (canConnect env) || connected (conn s));
      [split; reflexivity |].
    match goal with
    | |- context [getChannel env ?x] =>
        pose proof (getChannel_frame env x) as Hf; cbv zeta in Hf;
        destruct Hf as (_ & _ & _ & Hpu & Hsp & _);
        destruct (getChannel env x) as [s1 p]
    end.
    simpl in Hpu, Hsp.
    destruct (chan_promises s1 !! p) as [[| |]|]; simpl;
      rewrite Hsp, Hpu; split; reflexivity.
  - left. destruct (channels s !! c) as [ch|]; [| split; reflexivity].
    destruct a; simpl; try (split; reflexivity).
    match goal with
    | |- context [resolve_channel env ?p ?c ?x] =>
        destruct (resolve_channel_frame env p c x) as (_ & _ & _ & Hsp & _);
        rewrite Hsp, (resolve_channel_pushes env p c x Hw)
    end.
    split; reflexivity.
  - left. destruct (pushes s !! k) as [pu|]; [| split; reflexivity].
    destruct a; simpl; rewrite settle_length; split; reflexivity.
  - left. destruct (channels s !! c); [| split; reflexivity].
    unfold onChannelError. simpl.
    destruct (socket (conn s)); split; reflexivity.
  - left. destruct (channels s !! c); [| split; reflexivity].
    unfold onChannelClose. simpl.
    destruct (socket (conn s)); split; reflexivity.
  - left. destruct (channels s !! c); split; reflexivity.
  - left. destruct (sockets s !! sk) as [o|]; [destruct (sk_onError o) |];
      split; reflexivity.
  - left. destruct (sockets s !! sk) as [o|]; [destruct (sk_onClose o) |];
      split; reflexivity.
Qed.

Lemma push_inv_step (env : Env) (s : State) (e : Event) :
  waiters s = [] -> push_inv s -> push_inv (step env s e).
Proof.
  intros Hw (Hlt & Hinj).
  destruct (step_pushes env s e Hw)
    as [(Hpu & Hlen) | (Hlen & [Hpu | (c & ev & pl & Hpu)])];
    unfold push_inv; rewrite Hpu, Hlen.
  - split; assumption.
  - split; [| exact Hinj]. intros k pu H. specialize (Hlt k pu H). lia.
  - split.
    + intros k pu H. apply lookup_snoc_Some in H as [[_ H] | [_ <-]].
      * specialize (Hlt k pu H). lia.
      * simpl. lia.
    + intros k k' pu pu' H H' Heq.
      apply lookup_snoc_Some in H as [[Hk H] | [-> <-]];
        apply lookup_snoc_Some in H' as [[Hk' H'] | [-> <-]].
      * exact (Hinj k k' pu pu' H H' Heq).
      * specialize (Hlt k pu H). simpl in Heq. lia.
      * specialize (Hlt k' pu' H'). simpl in Heq. lia.
      * reflexivity.
Qed.

Lemma push_inv_reachable (env : Env) (es : list Event) :
  push_inv (run env init es).
Proof.
  assert (H : forall s, wf s -> reach_inv env s -> push_inv s ->
                        push_inv (run env s es)).
  { induction es as [|e es IH]; intros s Hwf Hr Hp; simpl; [exact Hp |].
    apply IH; [apply wf_step, Hwf | apply reach_inv_step; assumption |].
    apply push_inv_step; [| exact Hp].
    destruct Hr as (_ & _ & _ & _ & _ & _ & Hw & _). exact Hw. }
  apply H; [apply wf_init | apply reach_inv_init |].
  split; simpl; intros; discriminate.
Qed.

(** X12. In every state a fresh service can reach, each push made by [send]
    has a promise of its own, so the acknowledgment of one push settles the
    promise of the [send] that made it and leaves the promise of every
    other [send] as it was. *)
Theorem ack_settles_own_send (env : Env) (es : list Event) (k k' : push_id)
    (pu pu' : PushObj) (a : ack) (response : value) :
  let s := run env init es in
  pushes s !! k = Some pu ->
  pushes s !! k' = Some pu' ->
  k' <> k ->
  pu_promise pu' <> pu_promise pu /\
  send_promises (step env s (PushReply k a response)) !! pu_promise pu'
  = send_promises s !! pu_promise pu'.
Proof.
  cbv zeta. intros Hk Hk' Hne.
  destruct (push_inv_reachable env es) as (_ & Hinj).
  assert (Hq : pu_promise pu' <> pu_promise pu).
  { intros Heq. apply Hne. exact (Hinj k' k pu' pu Hk' Hk Heq). }
  split; [exact Hq |]. simpl. rewrite Hk.
  destruct a; simpl;
    match goal with
    | |- settle ?p ?o ?ps !! ?i = _ =>
        destruct (settle_lookup p i o ps) as [H | (H & _)];
        [exact H | contradiction]
    end.
Qed.

Lemma ack_settles_own_send_witness :
  let s := run sample_env init
             [CallConnect; CanConnectSettled; CallSend "user:ef01" "one";
              CallSend "user:ef01" "two"] in
  let s' := step sample_env s (PushReply 0 Error (VStr "refused")) in
  send_promises s' !! 0 = Some (Rejected (VStr "refused")) /\
  send_promises s' !! 1 = Some Pending.
Proof.
  set (es := [CallConnect; CanConnectSettled; CallSend "user:ef01" "one";
              CallSend "user:ef01" "two"]).
  assert (H10 : 1 <> 0) by discriminate.
  assert (Hk : pushes (run sample_env init es) !! 0
               = Some (mkPush 0 "chat" (mkPayload "user:ef01" "one") 0))
    by (vm_compute; reflexivity).
  assert (Hk' : pushes (run sample_env init es) !! 1
                = Some (mkPush 0 "chat" (mkPayload "user:ef01" "two") 1))
    by (vm_compute; reflexivity).
  pose proof (ack_settles_own_send sample_env es 0 1 _ _ Error
                (VStr "refused") Hk Hk' H10) as (_ & H).
  cbv zeta. split; [vm_compute; reflexivity |].
  vm_compute in H |- *. exact H.
Defined.

Lemma join_ok_step (env : Env) (s : State) (c : channel_id) (ch : ChannelObj)
    (response : value) :
  channels s !! c = Some ch ->
  let s' := step env s (JoinReply c Ok response) in
  pings s' = S (pings s) /\
  channels s' = channels s /\
  connected (conn s') = true /\
  status (conn s') = Some (intl_t env "connection.connected") /\
  (chan_promises s !! ch_join ch <> Some Pending ->
   chan_promises s' !! ch_join ch = chan_promises s !! ch_join ch).
Proof.
  intros Hch. cbv zeta. simpl. rewrite Hch. unfold join_receive.
  match goal with
  | |- context [resolve_channel env ?p ?c ?x] =>
      destruct (resolve_channel_frame env p c x)
        as (Hc & _ & Hchs & _ & _ & Hp & _)
  end.
  rewrite Hc, Hchs, Hp, resolve_channel_promises.
  repeat split. simpl. intros Hne.
  destruct (settle_lookup (ch_join ch) (ch_join ch) (Fulfilled (Some c))
                          (chan_promises s)) as [H | (_ & H & _)];
    [exact H | contradiction].
Qed.

(** X13. The presence ping is sent once per "ok" acknowledgment of the
    join, not once per connection: when the join of the channel is
    acknowledged again (as after a rejoin), [connected] is set and
    [dispatcher.pingAll()] is called again, although the promise of
    [getChannel] was settled by the first acknowledgment. *)
Theorem join_ok_repeated (env : Env) (s : State) (c : channel_id)
    (ch : ChannelObj) (response : value) (n : nat) :
  channels s !! c = Some ch ->
  0 < n ->
  let s' := run env s (replicate n (JoinReply c Ok response)) in
  pings s' = pings s + n /\
  connected (conn s') = true /\
  status (conn s') = Some (intl_t env "connection.connected") /\
  (chan_promises s !! ch_join ch <> Some Pending ->
   chan_promises s' !! ch_join ch = chan_promises s !! ch_join ch).
Proof.
  intros Hch Hn. cbv zeta. destruct n as [|n]; [lia |]. clear Hn.
  revert s Hch. induction n as [|n IH]; intros s Hch;
    destruct (join_ok_step env s c ch response Hch)
      as (Hp & Hchs & Hc & Hs & Hk); cbv zeta in Hp, Hchs, Hc, Hs, Hk.
  - change (run env s (replicate 1 (JoinReply c Ok response)))
      with (step env s (JoinReply c Ok response)).
    rewrite Hp. repeat split; [lia | exact Hc | exact Hs | exact Hk].
  - change (run env s (replicate (S (S n)) (JoinReply c Ok response)))
      with (run env (step env s (JoinReply c Ok response))
                (replicate (S n) (JoinReply c Ok response))).
    assert (Hch1 : channels (step env s (JoinReply c Ok response)) !! c
                   = Some ch) by (rewrite Hchs; exact Hch).
    destruct (IH _ Hch1) as (Hp' & Hc' & Hs' & Hk').
    rewrite Hp', Hp. repeat split; [lia | exact Hc' | exact Hs' |].
    intros Hne. rewrite Hk' by (rewrite (Hk Hne); exact Hne). exact (Hk Hne).
Qed.

Lemma join_ok_repeated_witness :
  let s' := run sample_env joined (replicate 2 (JoinReply 0 Ok VUndefined)) in
  pings joined = 1 /\ pings s' = 3 /\
  chan_promises s' !! 0 = Some (Fulfilled (Some 0)).
Proof.
  assert (H2 : 0 < 2) by lia.
  assert (Hne : chan_promises joined !! 0 <> Some Pending) by discriminate.
  pose proof (join_ok_repeated sample_env joined 0 _ VUndefined 2
                eq_refl H2) as (Hp & _ & _ & Hk).
  cbv zeta in *. split; [reflexivity |]. split; [exact Hp |].
  exact (Hk Hne).
Defined.
